(** * The request cache/executor hook of src/hooks/useApi.js

    A shallow embedding of [useApi], its [execute] and [refetch] closures,
    the mount effect with its cleanup, and the derived hooks [usePost],
    [usePut] and [useDelete].

    An [async] function is cut at its [await]s: the code up to the first
    [await] runs when the caller invokes it, and each later piece runs when
    the environment settles the awaited promise.  The environment (caller,
    transport, clock, React) is a list of events; the hook is a function
    from a state and an event to the next state.

    What the model takes from outside the file:
    - the arguments are of their documented types: the url a string, the
      options an object of plain data, so that [JSON.stringify] and the
      template literal return;
    - [Date.now()] is an integer that the environment chooses at each event
      (it need not grow);
    - a state setter takes effect at once, and [url], [options] and
      [cacheTime] are those of one render;
    - the transport honours its signal, see [Hook.observed];  the
      settlement of a promise and the continuation of the [await] on it are
      one event. *)

From Stdlib Require Import Ascii.
From stdpp Require Import base gmap strings list pretty.

Set Warnings "-register-all".

Local Open Scope string_scope.
Local Open Scope Z_scope.
Local Open Scope list_scope.

(** ** JavaScript values *)

Module JS.

(** The values that can sit in a fetch options object or come out of
    [response.json()].  Numbers are the integer-valued ones;  [JSignal c] is
    the [AbortSignal] of the [c]-th [AbortController] (a host object without
    enumerable own properties). *)
Inductive jsval : Type :=
| JUndefined
| JNull
| JBool (b : bool)
| JNum (n : Z)
| JStr (s : string)
| JArr (items : list jsval)
| JObj (props : list (string * jsval))
| JSignal (controller : nat).

(** A plain object: its own enumerable properties in insertion order.
    (JavaScript lists array-index names first; the names used by the hook,
    ["method"], ["headers"], ["signal"], ["Content-Type"], are not indices.) *)
Abbreviation obj := (list (string * jsval)).

(** [o.k]: the value of property [k], [undefined] when absent. *)
Fixpoint obj_get (k : string) (o : obj) : jsval :=
  match o with
  | [] => JUndefined
  | (k', v) :: o' => if decide (k' = k) then v else obj_get k o'
  end.

(** [o[k] = v]: overwrite in place when [k] is present, append otherwise. *)
Fixpoint obj_set (k : string) (v : jsval) (o : obj) : obj :=
  match o with
  | [] => [(k, v)]
  | (k', v') :: o' =>
      if decide (k' = k) then (k', v) :: o' else (k', v') :: obj_set k v o'
  end.

Fixpoint chars (s : string) : list string :=
  match s with
  | EmptyString => []
  | String c s' => String c EmptyString :: chars s'
  end.

(** The own enumerable properties that an object spread [...v] copies:
    those of an object, the indexed elements of an array, the indexed
    characters of a string (ASCII strings: one character per byte), and
    nothing for [undefined], [null], booleans, numbers and host objects. *)
Definition own_props (v : jsval) : obj :=
  match v with
  | JObj props => props
  | JArr items => imap (fun i x => (pretty i, x)) items
  | JStr s => imap (fun i c => (pretty i, JStr c)) (chars s)
  | _ => []
  end.

(** [{...dst, ...src}] continued from the properties [dst] defined so far. *)
Definition spread (src : jsval) (dst : obj) : obj :=
  foldl (fun acc kv => obj_set kv.1 kv.2 acc) dst (own_props src).

(** ** JSON.stringify *)

Definition hex_digit (n : N) : ascii :=
  match n with
  | 10 => "a" | 11 => "b" | 12 => "c" | 13 => "d" | 14 => "e" | 15 => "f"
  | _ => pretty_N_char n
  end%N%char.

Definition dquote : ascii := "034"%char.

(** The escape of one character inside a JSON string literal: the quote,
    the backslash, the five short escapes, [\u00xx] for the other control
    characters, and every other character as it is. *)
Definition quote_char (c : ascii) : string :=
  let n := N_of_ascii c in
  if decide (n = 34)%N then String "\" (String dquote EmptyString)
  else if decide (n = 92)%N then "\\"
  else if decide (n = 8)%N then "\b"
  else if decide (n = 9)%N then "\t"
  else if decide (n = 10)%N then "\n"
  else if decide (n = 12)%N then "\f"
  else if decide (n = 13)%N then "\r"
  else if decide (n < 32)%N then
    "\u00" +:+ String (hex_digit (n / 16)) (String (hex_digit (n mod 16)) EmptyString)
  else String c EmptyString.

Fixpoint quote_chars (s : string) : string :=
  match s with
  | EmptyString => EmptyString
  | String c s' => quote_char c +:+ quote_chars s'
  end.

Definition quote (s : string) : string :=
  String dquote (quote_chars s) +:+ String dquote EmptyString.

Fixpoint join_comma (l : list string) : string :=
  match l with
  | [] => ""
  | [s] => s
  | s :: l' => s +:+ "," +:+ join_comma l'
  end.

(** [JSON.stringify v]; [None] stands for the result [undefined].  A
    property whose value is [undefined] is left out of an object and
    printed as [null] in an array;  a host object prints as an empty
    object.  Integers print in decimal (as JavaScript does below 10^21). *)
Fixpoint stringify (v : jsval) : option string :=
  match v with
  | JUndefined => None
  | JNull => Some "null"
  | JBool b => Some (if b then "true" else "false")
  | JNum n => Some (pretty n)
  | JStr s => Some (quote s)
  | JArr items =>
      Some ("[" +:+ join_comma (map (fun x => default "null" (stringify x)) items) +:+ "]")
  | JObj props =>
      Some ("{" +:+
            join_comma
              (omap (fun kv => (fun s => quote kv.1 +:+ ":" +:+ s) <$> stringify kv.2) props)
            +:+ "}")
  | JSignal _ => Some "{}"
  end.

(** A template literal prints the value [undefined] as the word. *)
Definition template (s : option string) : string := default "undefined" s.

End JS.

Import JS.

(** ** The hook *)

Module Hook.

(** An exception value: [err.name] and [err.message]. *)
Record js_error : Type := { err_name : string; err_message : string }.

(** [new Error(message)] *)
Definition Error (message : string) : js_error :=
  {| err_name := "Error"; err_message := message |}.

(** What a promise of the transport rejects with once its signal is
    aborted (a [DOMException] named [AbortError]). *)
Definition AbortError : js_error :=
  {| err_name := "AbortError"; err_message := "The operation was aborted." |}.

(** A settled promise. *)
Inductive settled (A : Type) : Type :=
| Fulfilled (a : A)
| Rejected (e : js_error).
Arguments Fulfilled {A} a.
Arguments Rejected {A} e.

(** The part of a [Response] that [execute] reads. *)
Record Response : Type := { status : nat }.

(** [response.ok]: the status is in the range 200-299. *)
Definition ok (response : Response) : bool :=
  bool_decide (200 ≤ status response ≤ 299)%nat.

(** The object that [execute] returns: [{ success: true, data }] or
    [{ success: false, error }]. *)
Inductive Result : Type :=
| Success (data : jsval)
| Failure (error : string).

(** A value of [cacheRef.current]: [{ data, timestamp }]. *)
Record CacheEntry : Type := { entry_data : jsval; timestamp : Z }.

(** Where a suspended invocation of [execute] waits, with the local
    [cacheKey] it still needs. *)
Inductive frame : Type :=
| AwaitFetch (cacheKey : string)     (* at [await fetch(...)] *)
| AwaitJson (cacheKey : string).     (* at [await response.json()] *)

(** How far a piece of [execute] got: to a [return] or to the next [await]. *)
Inductive progress : Type :=
| Return (r : Result)
| Await (f : frame).

(** The arguments of [useApi]. *)
Record config : Type := {
  url : string;
  options : obj;
  immediate : bool;
  cacheTime : Z
}.

(** One executor instance.  The first three fields are the React state,
    the next two the refs.  An [AbortController] is known by its number in
    creation order; every invocation of [execute] creates exactly one, so
    the same number names the invocation.  The last three fields record
    what the environment sees: the calls of [fetch], the results of the
    invocations that returned, and the invocations whose promise rejected. *)
Record hook : Type := {
  data : jsval;
  loading : bool;
  error : option string;
  cacheRef : gmap string CacheEntry;
  abortControllerRef : option nat;
  aborted : gset nat;
  controllers : nat;
  frames : gmap nat frame;
  network : list (string * obj);
  returned : list (nat * Result);
  rejected : list (nat * js_error)
}.

Definition with_data (v : jsval) (h : hook) : hook :=
  {| data := v; loading := loading h; error := error h; cacheRef := cacheRef h;
     abortControllerRef := abortControllerRef h; aborted := aborted h;
     controllers := controllers h; frames := frames h; network := network h;
     returned := returned h; rejected := rejected h |}.

Definition with_loading (b : bool) (h : hook) : hook :=
  {| data := data h; loading := b; error := error h; cacheRef := cacheRef h;
     abortControllerRef := abortControllerRef h; aborted := aborted h;
     controllers := controllers h; frames := frames h; network := network h;
     returned := returned h; rejected := rejected h |}.

Definition with_error (e : option string) (h : hook) : hook :=
  {| data := data h; loading := loading h; error := e; cacheRef := cacheRef h;
     abortControllerRef := abortControllerRef h; aborted := aborted h;
     controllers := controllers h; frames := frames h; network := network h;
     returned := returned h; rejected := rejected h |}.

Definition with_cache (c : gmap string CacheEntry) (h : hook) : hook :=
  {| data := data h; loading := loading h; error := error h; cacheRef := c;
     abortControllerRef := abortControllerRef h; aborted := aborted h;
     controllers := controllers h; frames := frames h; network := network h;
     returned := returned h; rejected := rejected h |}.

Definition with_aborted (a : gset nat) (h : hook) : hook :=
  {| data := data h; loading := loading h; error := error h; cacheRef := cacheRef h;
     abortControllerRef := abortControllerRef h; aborted := a;
     controllers := controllers h; frames := frames h; network := network h;
     returned := returned h; rejected := rejected h |}.

Definition with_controller (c : nat) (h : hook) : hook :=
  {| data := data h; loading := loading h; error := error h; cacheRef := cacheRef h;
     abortControllerRef := Some c; aborted := aborted h;
     controllers := S (controllers h); frames := frames h; network := network h;
     returned := returned h; rejected := rejected h |}.

Definition with_network (n : list (string * obj)) (h : hook) : hook :=
  {| data := data h; loading := loading h; error := error h; cacheRef := cacheRef h;
     abortControllerRef := abortControllerRef h; aborted := aborted h;
     controllers := controllers h; frames := frames h; network := n;
     returned := returned h; rejected := rejected h |}.

Definition with_frames (f : gmap nat frame) (h : hook) : hook :=
  {| data := data h; loading := loading h; error := error h; cacheRef := cacheRef h;
     abortControllerRef := abortControllerRef h; aborted := aborted h;
     controllers := controllers h; frames := f; network := network h;
     returned := returned h; rejected := rejected h |}.

Definition with_returned (r : list (nat * Result)) (h : hook) : hook :=
  {| data := data h; loading := loading h; error := error h; cacheRef := cacheRef h;
     abortControllerRef := abortControllerRef h; aborted := aborted h;
     controllers := controllers h; frames := frames h; network := network h;
     returned := r; rejected := rejected h |}.

Definition with_rejected (r : list (nat * js_error)) (h : hook) : hook :=
  {| data := data h; loading := loading h; error := error h; cacheRef := cacheRef h;
     abortControllerRef := abortControllerRef h; aborted := aborted h;
     controllers := controllers h; frames := frames h; network := network h;
     returned := returned h; rejected := r |}.

(** *** Statements that read and write the instance, and may throw *)

Inductive completion (A : Type) : Type :=
| Normal (a : A)
| Throw (e : js_error).
Arguments Normal {A} a.
Arguments Throw {A} e.

Definition M (A : Type) : Type := hook -> completion A * hook.

Definition ret {A} (a : A) : M A := fun h => (Normal a, h).

Definition bind {A B} (m : M A) (k : A -> M B) : M B :=
  fun h => match m h with
           | (Normal a, h') => k a h'
           | (Throw e, h') => (Throw e, h')
           end.

Definition throw {A} (e : js_error) : M A := fun h => (Throw e, h).

(** [try { body } catch (err) { handler }]: what [body] wrote before it
    threw stays written. *)
Definition try_catch {A} (body : M A) (handler : js_error -> M A) : M A :=
  fun h => match body h with
           | (Normal a, h') => (Normal a, h')
           | (Throw e, h') => handler e h'
           end.

(** [await p] inside a [try]: the value, or the rejection thrown. *)
Definition await {A} (p : settled A) : M A :=
  match p with
  | Fulfilled a => ret a
  | Rejected e => throw e
  end.

Notation "x <~ m ; k" := (bind m (fun x => k))
  (at level 90, m at level 80, right associativity, only parsing).
Notation "m ~; k" := (bind m (fun _ => k))
  (at level 90, right associativity, only parsing).

Definition setData (v : jsval) : M unit := fun h => (Normal (), with_data v h).
Definition setLoading (b : bool) : M unit := fun h => (Normal (), with_loading b h).
Definition setError (e : option string) : M unit := fun h => (Normal (), with_error e h).

(** [cacheRef.current.get], [.set] and [.delete] *)
Definition cache_get (k : string) : M (option CacheEntry) :=
  fun h => (Normal (cacheRef h !! k), h).
Definition cache_set (k : string) (e : CacheEntry) : M unit :=
  fun h => (Normal (), with_cache (<[k := e]> (cacheRef h)) h).
Definition cache_delete (k : string) : M unit :=
  fun h => (Normal (), with_cache (delete k (cacheRef h)) h).

(** [if (abortControllerRef.current) abortControllerRef.current.abort()] *)
Definition abort_current : M unit :=
  fun h => match abortControllerRef h with
           | Some c => (Normal (), with_aborted ({[c]} ∪ aborted h) h)
           | None => (Normal (), h)
           end.

(** [abortControllerRef.current = new AbortController()] *)
Definition new_AbortController : M nat :=
  fun h => (Normal (controllers h), with_controller (controllers h) h).

(** The call [fetch(url, init)]: the request goes out; its promise is
    settled later by the environment. *)
Definition fetch (url : string) (init : obj) : M unit :=
  fun h => (Normal (), with_network (network h ++ [(url, init)]) h).

(** The [init] argument that [execute] builds for [fetch]:
    [{ ...customOptions, signal, headers: { 'Content-Type':
    'application/json', ...customOptions.headers } }]. *)
Definition fetch_init (customOptions : obj) (signal : nat) : obj :=
  obj_set "headers"
    (JObj (spread (obj_get "headers" customOptions)
             (obj_set "Content-Type" (JStr "application/json") [])))
    (obj_set "signal" (JSignal signal) (spread (JObj customOptions) [])).

(** [`${customUrl}-${JSON.stringify(customOptions)}`] *)
Definition cacheKey (customUrl : string) (customOptions : obj) : string :=
  customUrl +:+ "-" +:+ template (stringify (JObj customOptions)).

(** What an [await] on a promise of the transport observes.  The transport
    honours the signal it was given: once [abort()] was called on the
    controller of request [c], a promise of that request that has not been
    delivered yet rejects with an [AbortError], whatever the network would
    have answered. *)
Definition observed {A} (h : hook) (c : nat) (p : settled A) : settled A :=
  if decide (c ∈ aborted h) then Rejected AbortError else p.

Section Instance.

Variable cfg : config.

(** The [catch (err)] block of [execute]. *)
Definition execute_catch (err : js_error) : M progress :=
  if decide (err_name err = "AbortError") then
    ret (Return (Failure "Request cancelled"))
  else
    setError (Some (err_message err)) ~;
    setLoading false ~;
    ret (Return (Failure (err_message err))).

(** [execute], from its call to the first [await] or [return].  [now] is
    what [Date.now()] answers. *)
Definition execute (customUrl : string) (customOptions : obj) (now : Z) : M progress :=
  abort_current ~;
  c <~ new_AbortController ;
  let cacheKey := cacheKey customUrl customOptions in
  cachedData <~ cache_get cacheKey ;
  let request :=
    setLoading true ~;
    setError None ~;
    try_catch
      (fetch customUrl (fetch_init customOptions c) ~;
       ret (Await (AwaitFetch cacheKey)))
      execute_catch in
  match cachedData with
  | Some cached =>
      if bool_decide (now - timestamp cached < cacheTime cfg) then
        setData (entry_data cached) ~;
        setError None ~;
        ret (Return (Success (entry_data cached)))
      else request
  | None => request
  end.

(** [execute], from the settlement of [fetch(...)] to [response.json()]. *)
Definition execute_fetched (cacheKey : string) (p : settled Response) : M progress :=
  try_catch
    (response <~ await p ;
     if negb (ok response) then
       throw (Error ("HTTP error! status: " +:+ pretty (status response)))
     else ret (Await (AwaitJson cacheKey)))
    execute_catch.

(** [execute], from the settlement of [response.json()] to its [return]. *)
Definition execute_parsed (cacheKey : string) (p : settled jsval) (now : Z) : M progress :=
  try_catch
    (result <~ await p ;
     cache_set cacheKey {| entry_data := result; timestamp := now |} ~;
     setData result ~;
     setLoading false ~;
     ret (Return (Success result)))
    execute_catch.

(** [refetch]: its result is that of the [execute()] it awaits. *)
Definition refetch (now : Z) : M progress :=
  cache_delete (cacheKey (url cfg) (options cfg)) ~;
  execute (url cfg) (options cfg) now.

(** The cleanup function that the effect returns. *)
Definition cleanup : M unit := abort_current.

(** What the caller, the transport and React do to an instance. *)
Inductive event : Type :=
| Execute (customUrl : option string) (customOptions : option obj) (now : Z)
    (* [execute(customUrl, customOptions)], an omitted argument is [None] *)
| Refetch (now : Z)
| FetchSettled (c : nat) (p : settled Response)
    (* the promise of [fetch] of invocation [c] settles *)
| BodySettled (c : nat) (p : settled jsval) (now : Z)
    (* the promise of [response.json()] of invocation [c] settles *)
| Cleanup
    (* React runs the cleanup: unmount, or before the effect runs again *)
| Rerun (now : Z).
    (* [execute] or [immediate] changed: cleanup, then the effect again *)

(** Run a piece of invocation [c]: it returns a result, waits at the next
    [await], or lets an exception escape, which rejects its promise. *)
Definition invoke (c : nat) (body : M progress) (h : hook) : hook :=
  match body h with
  | (Normal (Return r), h') =>
      with_returned (returned h' ++ [(c, r)]) (with_frames (delete c (frames h')) h')
  | (Normal (Await f), h') => with_frames (<[c := f]> (frames h')) h'
  | (Throw e, h') =>
      with_rejected (rejected h' ++ [(c, e)]) (with_frames (delete c (frames h')) h')
  end.

(** The body of the effect: [if (immediate) execute()]. *)
Definition effect (now : Z) (h : hook) : hook :=
  if immediate cfg then invoke (controllers h) (execute (url cfg) (options cfg) now) h
  else h.

Definition step (h : hook) (ev : event) : hook :=
  match ev with
  | Execute customUrl customOptions now =>
      invoke (controllers h)
        (execute (default (url cfg) customUrl) (default (options cfg) customOptions) now) h
  | Refetch now => invoke (controllers h) (refetch now) h
  | FetchSettled c p =>
      match frames h !! c with
      | Some (AwaitFetch key) => invoke c (execute_fetched key (observed h c p)) h
      | _ => h
      end
  | BodySettled c p now =>
      match frames h !! c with
      | Some (AwaitJson key) => invoke c (execute_parsed key (observed h c p) now) h
      | _ => h
      end
  | Cleanup => (cleanup h).2
  | Rerun now => effect now (cleanup h).2
  end.

Definition run (h : hook) (evs : list event) : hook := foldl step h evs.

(** The instance before its first render: [useState(null)],
    [useState(false)], [useState(null)], [useRef(new Map())],
    [useRef(null)]. *)
Definition initial : hook :=
  {| data := JNull; loading := false; error := None; cacheRef := ∅;
     abortControllerRef := None; aborted := ∅; controllers := 0%nat;
     frames := ∅; network := []; returned := []; rejected := [] |}.

(** Creation: the first render, then the effect. *)
Definition mount (now : Z) : hook := effect now initial.

(** The states an instance can be in. *)
Inductive reachable : hook -> Prop :=
| reachable_mount now : reachable (mount now)
| reachable_step h ev : reachable h -> reachable (step h ev).

End Instance.

(** [useApi(url, options = {}, immediate = true, cacheTime = 5 * 60 * 1000)] *)
Definition useApi (url : string) (options : option obj) (immediate : option bool)
    (cacheTime : option Z) : config :=
  {| url := url; options := default [] options;
     immediate := default true immediate;
     cacheTime := default (5 * 60 * 1000) cacheTime |}.

(** [useApi(url, { ...options, method: 'POST' }, false)] with [options = {}] *)
Definition usePost (url : string) (options : option obj) : config :=
  useApi url
    (Some (obj_set "method" (JStr "POST") (spread (JObj (default [] options)) [])))
    (Some false) None.

Definition usePut (url : string) (options : option obj) : config :=
  useApi url
    (Some (obj_set "method" (JStr "PUT") (spread (JObj (default [] options)) [])))
    (Some false) None.

Definition useDelete (url : string) (options : option obj) : config :=
  useApi url
    (Some (obj_set "method" (JStr "DELETE") (spread (JObj (default [] options)) [])))
    (Some false) None.

(** What the owning view reads: [{ data, loading, error }]. *)
Definition view (h : hook) : jsval * bool * option string :=
  (data h, loading h, error h).

(** The instance after the first two statements of [execute]. *)
Definition entered (h : hook) : hook :=
  with_controller (controllers h) (abort_current h).2.

(** The instance after invocation [c] returned [r]. *)
Definition finished (c : nat) (r : Result) (h : hook) : hook :=
  with_returned (returned h ++ [(c, r)]) (with_frames (delete c (frames h)) h).

(** The instance after invocation [c] stopped at an [await]. *)
Definition suspended (c : nat) (f : frame) (h : hook) : hook :=
  with_frames (<[c := f]> (frames h)) h.

(** What holds of the controllers in every state an instance reaches: the
    invocations that wait are known, and each of them other than the one in
    [abortControllerRef.current] has had its controller aborted. *)
Record invariant (h : hook) : Prop := {
  inv_frames : forall c f, frames h !! c = Some f -> (c < controllers h)%nat;
  inv_superseded :
    forall c f, frames h !! c = Some f -> abortControllerRef h ≠ Some c -> c ∈ aborted h;
  inv_current : forall c, abortControllerRef h = Some c -> (c < controllers h)%nat;
  inv_aborted : forall c, c ∈ aborted h -> (c < controllers h)%nat
}.


(** What the caller is told when an awaited promise rejects with [e]: the
    two branches of the [catch] block. *)
Definition failure_message (e : js_error) : string :=
  if decide (err_name e = "AbortError") then "Request cancelled" else err_message e.

(** The events by which the caller asks for data. *)
Definition is_call (ev : event) : bool :=
  match ev with
  | Execute _ _ _ | Refetch _ => true
  | _ => false
  end.

(** The events by which the transport answers. *)
Definition is_settlement (ev : event) : bool :=
  match ev with
  | FetchSettled _ _ | BodySettled _ _ _ => true
  | _ => false
  end.

(** The settlement that the waiting invocation [c] is waiting for at [f]. *)
Definition answers (c : nat) (f : frame) (ev : event) : bool :=
  match f, ev with
  | AwaitFetch _, FetchSettled c' _ => bool_decide (c' = c)
  | AwaitJson _, BodySettled c' _ _ => bool_decide (c' = c)
  | _, _ => false
  end.

(** The settlements of invocation [c]. *)
Definition settles (c : nat) (ev : event) : bool :=
  match ev with
  | FetchSettled c' _ | BodySettled c' _ _ => bool_decide (c' = c)
  | _ => false
  end.

End Hook.

Import Hook.

(** * Scenarios *)

Module Scenario.

Definition ok200 : settled Response := Fulfilled {| status := 200 |}.
Definition post1 : jsval := JObj [("id", JNum 1); ("title", JStr "first")].
Definition post1' : jsval := JObj [("id", JNum 1); ("title", JStr "edited")].

(** [useApi('/api/posts/1', {}, false)]: the caller drives every request. *)
Definition manual : config := useApi "/api/posts/1" None (Some false) None.

(** [useApi('/api/posts/1')]: the effect fetches at creation. *)
Definition eager : config := useApi "/api/posts/1" None None None.

(** The same with a time-to-live of one second. *)
Definition short_lived : config := useApi "/api/posts/1" None (Some false) (Some 1000).

(** The default request is answered and cached at time 10. *)
Definition cached_at_10 : list event :=
  [Execute None None 0; FetchSettled 0 ok200; BodySettled 0 (Fulfilled post1) 10].

(** Then another endpoint is asked for, and, while that request is in
    flight, the default one again, 20 ms after it was cached;  the
    superseded request is answered last. *)
Definition hit_while_loading : list event :=
  cached_at_10 ++
  [Execute (Some "/api/posts/2") None 20; Execute None None 30; FetchSettled 1 ok200].

Definition anonymous : obj := [("headers", JObj [("Authorization", JUndefined)])].
Definition bare : obj := [("headers", JObj [])].

(** A request with an [Authorization] header that is [undefined] is
    answered and cached, then the request without the header is asked for. *)
Definition colliding : list event :=
  [Execute (Some "/api/me") (Some anonymous) 0; FetchSettled 0 ok200;
   BodySettled 0 (Fulfilled post1) 10; Execute (Some "/api/me") (Some bare) 20].

End Scenario.

Import Scenario.

(** * More of the hook's surroundings *)

Module Trace.

(** The one event that removes a cache entry. *)
Definition is_refetch (ev : event) : bool :=
  match ev with
  | Refetch _ => true
  | _ => false
  end.

(** The answer that rejects the promise on which invocation [c] waits. *)
Definition rejection (c : nat) (f : frame) (e : js_error) (now : Z) : event :=
  match f with
  | AwaitFetch _ => FetchSettled c (Rejected e)
  | AwaitJson _ => BodySettled c (Rejected e) now
  end.

End Trace.

Import Trace.

(** * The form hook of src/hooks/useForm.js *)

(** ** The regular expressions that the forms use

    A string stands for the sequence of its code units, all below 256.  The
    matcher tries every way to match, so that [test] answers as
    [RegExp.prototype.test] does for a pattern without flags. *)

Module RegExp.

(** What one character can be asked to be. *)
Inductive cclass : Type :=
| Lower                        (* [a-z] *)
| Upper                        (* [A-Z] *)
| Digit                        (* [0-9], [\d] *)
| Space                        (* [\s] *)
| Dot                          (* [.] *)
| Lit (x : ascii)              (* the character itself *)
| Or (a b : cclass)            (* [[ab]] *)
| Not (a : cclass).            (* [[^a]] *)

Inductive re : Type :=
| Class (p : cclass)          (* one character *)
| Seq (a b : re)              (* [ab] *)
| Star (a : re)               (* [a*] *)
| Ahead (a : re)              (* [(?=a)] *)
| Bol                         (* [^] *)
| Eol.                        (* [$] *)

(** [a+] *)
Definition Plus (a : re) : re := Seq a (Star a).

Definition code (c : ascii) : N := N_of_ascii c.

(** [\s] is also what [trim] removes: tab, the line terminators, space and
    the no-break space;  [.] is anything but a line terminator. *)
Fixpoint in_class (p : cclass) (c : ascii) : bool :=
  match p with
  | Lower => bool_decide (97 <= code c <= 122)%N
  | Upper => bool_decide (65 <= code c <= 90)%N
  | Digit => bool_decide (48 <= code c <= 57)%N
  | Space =>
      bool_decide (9 <= code c <= 13)%N || bool_decide (code c = 32)%N
      || bool_decide (code c = 160)%N
  | Dot => negb (bool_decide (code c = 10)%N || bool_decide (code c = 13)%N)
  | Lit x => bool_decide (c = x)
  | Or a b => in_class a c || in_class b c
  | Not a => negb (in_class a c)
  end.

(** The iterations of [a*], where [once] matches [a] and [k] accepts what
    is left;  [n] bounds their number.  An iteration that consumes nothing
    is not taken. *)
Fixpoint iterate (once : bool -> string -> (bool -> string -> bool) -> bool)
    (k : bool -> string -> bool) (n : nat) (start : bool) (s : string) : bool :=
  k start s ||
  match n with
  | O => false
  | S n' =>
      once start s
        (fun start' s' =>
           (String.length s' <? String.length s)%nat && iterate once k n' start' s')
  end.

(** [matches r start s k]: [r] matches a prefix of [s] such that [k]
    accepts the rest;  [start] tells whether [s] is the whole input. *)
Fixpoint matches (r : re) (start : bool) (s : string) (k : bool -> string -> bool) : bool :=
  match r with
  | Class p =>
      match s with
      | String c s' => in_class p c && k false s'
      | EmptyString => false
      end
  | Seq a b => matches a start s (fun start' s' => matches b start' s' k)
  | Star a => iterate (matches a) k (String.length s) start s
  | Ahead a => matches a start s (fun _ _ => true) && k start s
  | Bol => start && k start s
  | Eol =>
      match s with
      | EmptyString => k start s
      | String _ _ => false
      end
  end.

(** A match starting here or further to the right. *)
Fixpoint search (r : re) (start : bool) (s : string) : bool :=
  matches r start s (fun _ _ => true) ||
  match s with
  | String _ s' => search r false s'
  | EmptyString => false
  end.

(** [r.test(s)] *)
Definition test (r : re) (s : string) : bool := search r true s.

(** Some character of [s] is in the class; all of them are. *)
Fixpoint has (p : cclass) (s : string) : bool :=
  match s with
  | EmptyString => false
  | String c s' => in_class p c || has p s'
  end.

Fixpoint all_in (p : cclass) (s : string) : bool :=
  match s with
  | EmptyString => true
  | String c s' => in_class p c && all_in p s'
  end.

(** The classes of the patterns below. *)
Definition word : cclass := Or Lower (Or Upper (Or Digit (Lit "_"))).
Definition part : cclass := Not (Or Space (Lit "@")).

(** [/^[^\s@]+@[^\s@]+\.[^\s@]+$/] *)
Definition email_re : re :=
  Seq Bol (Seq (Plus (Class part)) (Seq (Class (Lit "@")) (Seq (Plus (Class part))
    (Seq (Class (Lit ".")) (Seq (Plus (Class part)) Eol))))).

(** [/^[a-zA-Z0-9_]+$/] *)
Definition username_re : re := Seq Bol (Seq (Plus (Class word)) Eol).

(** [/(?=.*[a-z])(?=.*[A-Z])(?=.*\d)/] *)
Definition strong_re : re :=
  Seq (Ahead (Seq (Star (Class Dot)) (Class Lower)))
    (Seq (Ahead (Seq (Star (Class Dot)) (Class Upper)))
       (Ahead (Seq (Star (Class Dot)) (Class Digit)))).

End RegExp.

(** ** useForm *)

Module Form.

Import RegExp.

(** What a form holds for a field: the text of an input, the state of a
    checkbox, or nothing. *)
Inductive field : Type :=
| FUndefined
| FBool (b : bool)
| FStr (s : string).

(** An object with properties of one kind, in insertion order. *)
Fixpoint prop_get {A} (k : string) (o : list (string * A)) : option A :=
  match o with
  | [] => None
  | (k', v) :: o' => if decide (k' = k) then Some v else prop_get k o'
  end.

Fixpoint prop_set {A} (k : string) (v : A) (o : list (string * A)) : list (string * A) :=
  match o with
  | [] => [(k, v)]
  | (k', v') :: o' =>
      if decide (k' = k) then (k', v) :: o' else (k', v') :: prop_set k v o'
  end.

Abbreviation fields := (list (string * field)).

(** [values[name]] *)
Definition value_of (name : string) (values : fields) : field :=
  default FUndefined (prop_get name values).

Definition truthy (v : field) : bool :=
  match v with
  | FUndefined => false
  | FBool b => b
  | FStr s => negb (bool_decide (s = ""))
  end.

(** The string that [test] sees. *)
Definition to_string (v : field) : string :=
  match v with
  | FUndefined => "undefined"
  | FBool true => "true"
  | FBool false => "false"
  | FStr s => s
  end.

Fixpoint all_space (s : string) : bool :=
  match s with
  | EmptyString => true
  | String c s' => in_class Space c && all_space s'
  end.

Definition TypeError (message : string) : js_error :=
  {| err_name := "TypeError"; err_message := message |}.

(** [value.trim() === ''] for a truthy [value]: only a string has [trim]. *)
Definition trim_is_empty (value : field) : completion bool :=
  match value with
  | FStr s => Normal (all_space s)
  | _ => Throw (TypeError "value.trim is not a function")
  end.

(** [value.length]: [undefined] for a boolean. *)
Definition length_of (value : field) : option Z :=
  match value with
  | FStr s => Some (Z.of_nat (String.length s))
  | _ => None
  end.

(** What a rule can be set to. *)
Inductive required_rule : Type := ReqTrue | ReqMessage (message : string).
Inductive bound : Type := BoundTrue | BoundNum (n : Z).
Inductive pattern_rule : Type := PatTrue | PatRegExp (r : re).

(** What [validateField] returns and [errors] holds: a message (or the
    empty string), or the rule itself, a number or a regular expression. *)
Inductive error_value : Type :=
| ErrStr (s : string)
| ErrNum (n : Z)
| ErrRegExp (r : re).

Definition shown (e : error_value) : bool :=
  match e with
  | ErrStr s => negb (bool_decide (s = ""))
  | ErrNum n => negb (bool_decide (n = 0))
  | ErrRegExp _ => true
  end.

(** The rules of one field.  A custom validator returns a message, or the
    empty string. *)
Record rules : Type := {
  required : option required_rule;
  minLength : option bound;
  maxLength : option bound;
  pattern : option pattern_rule;
  validate : option (field -> fields -> string)
}.

Definition required_set (r : rules) : bool :=
  match required r with
  | Some ReqTrue => true
  | Some (ReqMessage m) => negb (bool_decide (m = ""))
  | None => false
  end.

Definition bound_set (b : option bound) : bool :=
  match b with
  | Some BoundTrue => true
  | Some (BoundNum n) => negb (bool_decide (n = 0))
  | None => false
  end.

(** The number that a bound compares as, and how a template prints it. *)
Definition bound_number (b : bound) : Z :=
  match b with BoundTrue => 1 | BoundNum n => n end.
Definition bound_text (b : bound) : string :=
  match b with BoundTrue => "true" | BoundNum n => pretty n end.

(** [value.length < rules.minLength]: false when the length is [undefined] *)
Definition shorter (value : field) (b : bound) : bool :=
  match length_of value with
  | Some n => bool_decide (n < bound_number b)
  | None => false
  end.

Definition longer (value : field) (b : bound) : bool :=
  match length_of value with
  | Some n => bool_decide (n > bound_number b)
  | None => false
  end.

(** [rules.required === true ? `${name} is required` : rules.required] *)
Definition required_error (name : string) (r : rules) : error_value :=
  match required r with
  | Some (ReqMessage m) => ErrStr m
  | _ => ErrStr (name +:+ " is required")
  end.

Section Hook.

(** The arguments of [useForm];  [onSubmit] is given or [null]. *)
Variable initialValues : fields.
Variable validationSchema : list (string * rules).
Variable onSubmit : bool.

(** [validateField(name, value)] with the [values] of this render. *)
Definition validateField (values : fields) (name : string) (value : field)
  : completion error_value :=
  match prop_get name validationSchema with
  | None => Normal (ErrStr "")
  | Some rules =>
      let after_required : completion error_value :=
        if bound_set (minLength rules) && truthy value
           && shorter value (default BoundTrue (minLength rules)) then
          Normal match default BoundTrue (minLength rules) with
                 | BoundTrue => ErrStr (name +:+ " must be at least true characters")
                 | BoundNum n => ErrNum n
                 end
        else if bound_set (maxLength rules) && truthy value
                && longer value (default BoundTrue (maxLength rules)) then
          Normal match default BoundTrue (maxLength rules) with
                 | BoundTrue => ErrStr (name +:+ " must be no more than true characters")
                 | BoundNum n => ErrNum n
                 end
        else
          let after_pattern : completion error_value :=
            match validate rules with
            | Some check =>
                let customError := check value values in
                if negb (bool_decide (customError = "")) then Normal (ErrStr customError)
                else Normal (ErrStr "")
            | None => Normal (ErrStr "")
            end in
          match pattern rules with
          | Some p =>
              if truthy value then
                match p with
                | PatTrue => Throw (TypeError "rules.pattern.test is not a function")
                | PatRegExp r =>
                    if negb (test r (to_string value)) then Normal (ErrRegExp r)
                    else after_pattern
                end
              else after_pattern
          | None => after_pattern
          end in
      if required_set rules then
        if negb (truthy value) then Normal (required_error name rules)
        else
          match trim_is_empty value with
          | Normal true => Normal (required_error name rules)
          | Normal false => after_required
          | Throw e => Throw e
          end
      else after_required
  end.

(** The state of the hook, and what its callers saw of it: the values
    that [onSubmit] was called with, what the calls of [handleSubmit]
    resolved to, and the exceptions that left a handler. *)
Record form : Type := {
  values : fields;
  errors : list (string * error_value);
  touched : list (string * bool);
  isSubmitting : bool;
  submitted : list fields;
  awaiting : nat;
  resolved : list bool;
  uncaught : list js_error
}.

Definition start : form :=
  {| values := initialValues; errors := []; touched := []; isSubmitting := false;
     submitted := []; awaiting := 0; resolved := []; uncaught := [] |}.

(** The loop of [validateForm()] over the names of the schema: the errors
    it found so far, or the exception of a field. *)
Fixpoint collect_errors (values : fields) (names : list string)
    (newErrors : list (string * error_value)) : completion (list (string * error_value)) :=
  match names with
  | [] => Normal newErrors
  | fieldName :: rest =>
      match validateField values fieldName (value_of fieldName values) with
      | Throw e => Throw e
      | Normal error =>
          collect_errors values rest
            (if shown error then prop_set fieldName error newErrors else newErrors)
      end
  end.

Definition schema_keys : list string := validationSchema.*1.

(** The field passes: [validateField] returns, and what it returns is
    falsy. *)
Definition passes (values : fields) (fieldName : string) : Prop :=
  exists error,
    validateField values fieldName (value_of fieldName values) = Normal error /\
    shown error = false.

Definition validateForm (st : form) : completion (list (string * error_value)) :=
  collect_errors (values st) schema_keys [].

Definition handleChange (name : string) (value : field) (st : form) : form :=
  let st' :=
    {| values := prop_set name value (values st); errors := errors st;
       touched := touched st; isSubmitting := isSubmitting st;
       submitted := submitted st; awaiting := awaiting st; resolved := resolved st;
       uncaught := uncaught st |} in
  if default false (shown <$> prop_get name (errors st)) then
    {| values := values st'; errors := prop_set name (ErrStr "") (errors st);
       touched := touched st; isSubmitting := isSubmitting st;
       submitted := submitted st; awaiting := awaiting st; resolved := resolved st;
       uncaught := uncaught st |}
  else st'.

Definition handleBlur (name : string) (st : form) : form :=
  let touched' := prop_set name true (touched st) in
  match validateField (values st) name (value_of name (values st)) with
  | Normal error =>
      {| values := values st; errors := prop_set name error (errors st);
         touched := touched'; isSubmitting := isSubmitting st;
         submitted := submitted st; awaiting := awaiting st; resolved := resolved st;
         uncaught := uncaught st |}
  | Throw e =>
      {| values := values st; errors := errors st;
         touched := touched'; isSubmitting := isSubmitting st;
         submitted := submitted st; awaiting := awaiting st; resolved := resolved st;
         uncaught := uncaught st ++ [e] |}
  end.

(** [handleSubmit], up to its [return] or to [await onSubmit(values)]. *)
Definition handleSubmit (st : form) : form :=
  let allTouched := foldl (fun acc fieldName => prop_set fieldName true acc) [] schema_keys in
  match validateForm st with
  | Throw e =>
      {| values := values st; errors := errors st; touched := allTouched;
         isSubmitting := isSubmitting st; submitted := submitted st;
         awaiting := awaiting st; resolved := resolved st;
         uncaught := uncaught st ++ [e] |}
  | Normal newErrors =>
      if negb (bool_decide (newErrors = [])) then
        {| values := values st; errors := newErrors; touched := allTouched;
           isSubmitting := isSubmitting st; submitted := submitted st;
           awaiting := awaiting st; resolved := resolved st ++ [false];
           uncaught := uncaught st |}
      else if onSubmit then
        {| values := values st; errors := newErrors; touched := allTouched;
           isSubmitting := true; submitted := submitted st ++ [values st];
           awaiting := S (awaiting st); resolved := resolved st;
           uncaught := uncaught st |}
      else
        {| values := values st; errors := newErrors; touched := allTouched;
           isSubmitting := isSubmitting st; submitted := submitted st;
           awaiting := awaiting st; resolved := resolved st ++ [true];
           uncaught := uncaught st |}
  end.

(** [handleSubmit], after [onSubmit] returned or failed: the [catch]
    logs, the [finally] clears the flag, and it returns [true]. *)
Definition submit_settled (st : form) : form :=
  match awaiting st with
  | O => st
  | S n =>
      {| values := values st; errors := errors st; touched := touched st;
         isSubmitting := false; submitted := submitted st;
         awaiting := n; resolved := resolved st ++ [true]; uncaught := uncaught st |}
  end.

Definition resetForm (st : form) : form :=
  {| values := initialValues; errors := []; touched := []; isSubmitting := false;
     submitted := submitted st; awaiting := awaiting st; resolved := resolved st;
     uncaught := uncaught st |}.

Definition setFormValues (newValues : fields) (st : form) : form :=
  {| values := newValues; errors := errors st; touched := touched st;
     isSubmitting := isSubmitting st; submitted := submitted st;
     awaiting := awaiting st; resolved := resolved st; uncaught := uncaught st |}.

(** [Object.keys(errors).length === 0] *)
Definition isValid (st : form) : bool := bool_decide (errors st = []).

(** What the user and the callbacks do to the form. *)
Inductive action : Type :=
| Change (name : string) (value : field)
| Blur (name : string)
| Submit
| SubmitSettled (fulfilled : bool)
| Reset
| SetValues (newValues : fields).

Definition act (st : form) (a : action) : form :=
  match a with
  | Change name value => handleChange name value st
  | Blur name => handleBlur name st
  | Submit => handleSubmit st
  | SubmitSettled _ => submit_settled st
  | Reset => resetForm st
  | SetValues newValues => setFormValues newValues st
  end.

Definition acts (st : form) (l : list action) : form := foldl act st l.

End Hook.

(** An action that gives the field a text. *)
Definition is_text (v : field) : bool :=
  match v with FStr _ => true | _ => false end.

Definition sets_text (name : string) (a : action) : bool :=
  match a with
  | Change n v => bool_decide (n = name) && is_text v
  | SetValues newValues => is_text (value_of name newValues)
  | _ => false
  end.

(** [JSON.stringify(values) !== JSON.stringify(initialValues)] *)
Definition to_jsval (v : field) : jsval :=
  match v with
  | FUndefined => JUndefined
  | FBool b => JBool b
  | FStr s => JStr s
  end.

Definition isDirty (initialValues : fields) (st : form) : bool :=
  negb (bool_decide
          (stringify (JObj (prod_map id to_jsval <$> values st))
           = stringify (JObj (prod_map id to_jsval <$> initialValues)))).

(** [validationSchemas] *)
Definition email_rules : rules :=
  {| required := Some (ReqMessage "Email is required");
     minLength := None; maxLength := None;
     pattern := Some (PatRegExp email_re);
     validate := Some (fun value _ =>
       if truthy value && negb (test email_re (to_string value))
       then "Please enter a valid email address" else "") |}.

Definition password_rules : rules :=
  {| required := Some (ReqMessage "Password is required");
     minLength := Some (BoundNum 8); maxLength := None;
     pattern := None;
     validate := Some (fun value _ =>
       if truthy value && shorter value (BoundNum 8)
       then "Password must be at least 8 characters long"
       else if truthy value && negb (test strong_re (to_string value))
       then "Password must contain at least one uppercase letter, one lowercase letter, and one number"
       else "") |}.

Definition username_rules : rules :=
  {| required := Some (ReqMessage "Username is required");
     minLength := Some (BoundNum 3); maxLength := Some (BoundNum 20);
     pattern := Some (PatRegExp username_re);
     validate := Some (fun value _ =>
       if truthy value && negb (test username_re (to_string value))
       then "Username can only contain letters, numbers, and underscores" else "") |}.

Definition required_rules : rules :=
  {| required := Some ReqTrue; minLength := None; maxLength := None;
     pattern := None; validate := None |}.

End Form.

(** ** The forms of the pages *)

Module Pages.

Import RegExp Form.

Global Instance field_eq_dec : EqDecision field.
Proof. solve_decision. Defined.

(** The schema and the initial values of the Register page. *)
Definition confirmPassword_rules : rules :=
  {| required := Some (ReqMessage "Please confirm your password");
     minLength := None; maxLength := None; pattern := None;
     validate := Some (fun value values =>
       if bool_decide (value ≠ value_of "password" values)
       then "Passwords do not match" else "") |}.

Definition agreeToTerms_rules : rules :=
  {| required := Some (ReqMessage "You must agree to the terms and conditions");
     minLength := None; maxLength := None; pattern := None; validate := None |}.

Definition register_schema : list (string * rules) :=
  [("username", username_rules); ("email", email_rules); ("password", password_rules);
   ("confirmPassword", confirmPassword_rules); ("agreeToTerms", agreeToTerms_rules)].

Definition register_initial : fields :=
  [("username", FStr ""); ("email", FStr ""); ("password", FStr "");
   ("confirmPassword", FStr ""); ("agreeToTerms", FBool false)].

(** The schema and the initial values of the Login page. *)
Definition login_schema : list (string * rules) :=
  [("email", email_rules);
   ("password", {| required := Some (ReqMessage "Password is required");
                   minLength := Some (BoundNum 6); maxLength := None;
                   pattern := None; validate := None |})].

Definition login_initial : fields :=
  [("email", FStr ""); ("password", FStr ""); ("rememberMe", FBool false)].

(** The schema and the initial values of the CreatePost page, which gives
    [useForm] no [onSubmit]. *)
Definition createpost_schema : list (string * rules) :=
  [("title", {| required := Some (ReqMessage "Title is required");
                minLength := Some (BoundNum 5); maxLength := Some (BoundNum 200);
                pattern := None; validate := None |});
   ("content", {| required := Some (ReqMessage "Content is required");
                  minLength := Some (BoundNum 10); maxLength := None;
                  pattern := None; validate := None |});
   ("category", {| required := Some (ReqMessage "Please select a category");
                   minLength := None; maxLength := None;
                   pattern := None; validate := None |})].

Definition createpost_initial : fields :=
  [("title", FStr ""); ("content", FStr ""); ("category", FStr "");
   ("tags", FStr ""); ("isPublished", FBool true)].

(** [getPasswordStrength(password)] of the Register page: the score, the
    label and the colour. *)
Definition strengthMap (score : nat) : string * string :=
  match score with
  | 0 => ("Very Weak", "bg-red-500")
  | 1 => ("Weak", "bg-orange-500")
  | 2 => ("Fair", "bg-yellow-500")
  | 3 => ("Good", "bg-blue-500")
  | 4 => ("Strong", "bg-green-500")
  | _ => ("Very Strong", "bg-green-600")
  end%nat.

Definition point (b : bool) : nat := if b then 1 else 0.

(** [password.length >= 8]: false when the length is [undefined] *)
Definition long_enough (password : field) : bool :=
  match length_of password with
  | Some n => bool_decide (n >= 8)
  | None => false
  end.

Definition getPasswordStrength (password : field) : nat * (string * string) :=
  if negb (truthy password) then (0%nat, ("", ""))
  else
    let score :=
      (point (long_enough password)
       + point (test (Class Lower) (to_string password))
       + point (test (Class Upper) (to_string password))
       + point (test (Class Digit) (to_string password))
       + point (test (Class (Not (Or Upper (Or Lower Digit)))) (to_string password)))%nat in
    (score, strengthMap score).

End Pages.

(** * The reducer of src/context/AuthContext.jsx *)

Module Auth.

Record state : Type := {
  user : jsval;
  token : jsval;
  isLoading : bool;
  error : jsval;
  isAuthenticated : bool
}.

(** An action: its type and its payload;  [OTHER] is any other type. *)
Inductive action : Type :=
| LOGIN_START
| LOGIN_SUCCESS (user token : jsval)
| LOGIN_FAILURE (payload : jsval)
| LOGOUT
| REGISTER_START
| REGISTER_SUCCESS (user token : jsval)
| REGISTER_FAILURE (payload : jsval)
| CLEAR_ERROR
| OTHER.

(** [initialState], with what [localStorage.getItem('token')] answers. *)
Definition initialState (stored : option string) : state :=
  {| user := JNull;
     token := match stored with
              | Some t => if bool_decide (t = "") then JNull else JStr t
              | None => JNull
              end;
     isLoading := false; error := JNull; isAuthenticated := false |}.

Definition authReducer (s : state) (a : action) : state :=
  match a with
  | LOGIN_START | REGISTER_START =>
      {| user := user s; token := token s; isLoading := true; error := JNull;
         isAuthenticated := isAuthenticated s |}
  | LOGIN_SUCCESS u t | REGISTER_SUCCESS u t =>
      {| user := u; token := t; isLoading := false; error := JNull;
         isAuthenticated := true |}
  | LOGIN_FAILURE payload | REGISTER_FAILURE payload =>
      {| user := user s; token := token s; isLoading := false; error := payload;
         isAuthenticated := isAuthenticated s |}
  | LOGOUT =>
      {| user := JNull; token := JNull; isLoading := false; error := JNull;
         isAuthenticated := false |}
  | CLEAR_ERROR =>
      {| user := user s; token := token s; isLoading := isLoading s; error := JNull;
         isAuthenticated := isAuthenticated s |}
  | OTHER => s
  end.

Definition dispatch (s : state) (l : list action) : state := foldl authReducer s l.

(** The actions that set the user, the token or [isAuthenticated]. *)
Definition changes_session (a : action) : bool :=
  match a with
  | LOGIN_SUCCESS _ _ | REGISTER_SUCCESS _ _ | LOGOUT => true
  | _ => false
  end.

End Auth.

(** * Properties *)

(** ** Objects *)

Section Objects.

Implicit Types (k : string) (v : jsval) (o : obj).

Lemma obj_get_set_eq k v o : obj_get k (obj_set k v o) = v.
Proof.
  induction o as [|[k' v'] o IH]; simpl.
  - by rewrite decide_True.
  - destruct (decide (k' = k)) as [->|Hne]; simpl.
    + by rewrite decide_True.
    + by rewrite decide_False.
Qed.

Lemma obj_get_set_ne k k' v o : k' ≠ k -> obj_get k (obj_set k' v o) = obj_get k o.
Proof.
  intros Hne. induction o as [|[k'' v''] o IH]; simpl.
  - by rewrite decide_False.
  - destruct (decide (k'' = k')) as [->|Hne']; simpl.
    + by rewrite !decide_False.
    + destruct (decide (k'' = k)); [done|apply IH].
Qed.

Lemma obj_set_fresh k v o : k ∉ o.*1 -> obj_set k v o = o ++ [(k, v)].
Proof.
  induction o as [|[k' v'] o IH]; csimpl; [done|].
  intros Hnin. apply not_elem_of_cons in Hnin as [Hne Hnin].
  rewrite decide_False by done. by rewrite IH.
Qed.

Lemma obj_set_keys k v o : k ∈ o.*1 -> (obj_set k v o).*1 = o.*1.
Proof.
  induction o as [|[k' v'] o IH]; csimpl; [by intros ?%elem_of_nil|].
  intros Hin. destruct (decide (k' = k)) as [->|Hne]; csimpl; [done|].
  apply elem_of_cons in Hin as [?|Hin]; [congruence|]. by rewrite IH.
Qed.

Lemma obj_set_NoDup k v o : NoDup o.*1 -> NoDup (obj_set k v o).*1.
Proof.
  intros Hnd. destruct (decide (k ∈ o.*1)) as [Hin|Hnin].
  - by rewrite obj_set_keys.
  - rewrite obj_set_fresh, fmap_app by done. csimpl.
    apply NoDup_app. split_and!; [done| |apply NoDup_singleton].
    intros k' Hin ->%list_elem_of_singleton. done.
Qed.

Lemma spread_NoDup v o : NoDup o.*1 -> NoDup (spread v o).*1.
Proof.
  unfold spread. generalize (own_props v). intros l. revert o.
  induction l as [|[k x] l IH]; intros o Hnd; csimpl; [done|].
  by apply IH, obj_set_NoDup.
Qed.

(** Copying a well-formed object into a new one gives the same object. *)
Lemma spread_app o acc : NoDup (acc ++ o).*1 -> spread (JObj o) acc = acc ++ o.
Proof.
  unfold spread. csimpl. revert acc.
  induction o as [|[k x] o IH]; intros acc Hnd; csimpl; [by rewrite app_nil_r|].
  assert (k ∉ acc.*1) as Hnin.
  { rewrite fmap_app in Hnd. apply NoDup_app in Hnd as (_ & Hdisj & _).
    intros Hin. apply (Hdisj k Hin). csimpl. apply elem_of_cons. by left. }
  rewrite obj_set_fresh by done. rewrite IH.
  - by rewrite <- app_assoc.
  - by rewrite <- app_assoc.
Qed.

Lemma spread_id o : NoDup o.*1 -> spread (JObj o) [] = o.
Proof. intros Hnd. by rewrite spread_app. Qed.

End Objects.

(** ** JSON.stringify and the request, on samples *)

Example stringify_sample :
  stringify (JObj [("method", JStr "POST"); ("body", JUndefined);
                   ("n", JArr [JNum (-3); JUndefined; JBool true])])
  = Some ("{" +:+ quote "method" +:+ ":" +:+ quote "POST" +:+ ","
            +:+ quote "n" +:+ ":[-3,null,true]}").
Proof. vm_compute. reflexivity. Qed.

Example quote_sample :
  quote (String "001"%char (String "010"%char (String dquote "\/")))
  = String dquote ("\u0001\n\" +:+ String dquote ("\\/" +:+ String dquote "")).
Proof. vm_compute. reflexivity. Qed.

Example cacheKey_sample : cacheKey "/api/posts/1" [] = "/api/posts/1-{}".
Proof. vm_compute. reflexivity. Qed.

Example fetch_init_sample :
  fetch_init [("method", JStr "GET");
              ("headers", JObj [("X", JStr "1"); ("Content-Type", JStr "text/plain")]);
              ("signal", JNull)] 3
  = [("method", JStr "GET");
     ("headers", JObj [("Content-Type", JStr "text/plain"); ("X", JStr "1")]);
     ("signal", JSignal 3)].
Proof. vm_compute. reflexivity. Qed.

(** ** One piece of [execute] at a time *)

Ltac unfold_hook :=
  unfold step, effect, invoke, refetch, cleanup, execute, execute_fetched,
    execute_parsed, execute_catch, observed, try_catch, await, bind, ret, throw,
    setData, setLoading, setError, cache_get, cache_set, cache_delete,
    abort_current, new_AbortController, fetch in *.

Section Pieces.

Variable cfg : config.

Implicit Types (h : hook) (c : nat) (key : string) (e : js_error).

Lemma execute_hit u o now h cached :
  cacheRef h !! cacheKey u o = Some cached ->
  now - timestamp cached < cacheTime cfg ->
  execute cfg u o now h =
    (Normal (Return (Success (entry_data cached))),
     with_error None (with_data (entry_data cached) (entered h))).
Proof.
  intros Hc Hfresh. unfold_hook. unfold entered, abort_current.
  destruct (abortControllerRef h); simpl; rewrite Hc;
    by rewrite bool_decide_eq_true_2.
Qed.

Lemma execute_miss u o now h :
  match cacheRef h !! cacheKey u o with
  | Some cached => cacheTime cfg <= now - timestamp cached
  | None => True
  end ->
  execute cfg u o now h =
    (Normal (Await (AwaitFetch (cacheKey u o))),
     with_network (network h ++ [(u, fetch_init o (controllers h))])
       (with_error None (with_loading true (entered h)))).
Proof.
  intros Hc. unfold_hook. unfold entered, abort_current.
  destruct (abortControllerRef h); simpl;
    (destruct (cacheRef h !! cacheKey u o) as [cached|]; simpl;
     [rewrite bool_decide_eq_false_2; [done|lia] | done]).
Qed.

Lemma entered_fields h :
  data (entered h) = data h /\ loading (entered h) = loading h /\
  error (entered h) = error h /\ cacheRef (entered h) = cacheRef h /\
  abortControllerRef (entered h) = Some (controllers h) /\
  controllers (entered h) = S (controllers h) /\
  frames (entered h) = frames h /\ network (entered h) = network h /\
  returned (entered h) = returned h /\ rejected (entered h) = rejected h /\
  aborted (entered h) =
    match abortControllerRef h with Some c => {[c]} ∪ aborted h | None => aborted h end.
Proof. unfold entered, abort_current. by destruct (abortControllerRef h). Qed.

(** Every piece ends normally: the [try] leaves nothing uncaught. *)
Lemma execute_normal u o now h : exists pr, (execute cfg u o now h).1 = Normal pr.
Proof.
  destruct (cacheRef h !! cacheKey u o) as [cached|] eqn:Hc.
  - destruct (decide (now - timestamp cached < cacheTime cfg)).
    + erewrite execute_hit by done. by eexists.
    + rewrite execute_miss; [by eexists|]. rewrite Hc. lia.
  - rewrite execute_miss; [by eexists|]. by rewrite Hc.
Qed.

Lemma execute_catch_run e h :
  execute_catch e h =
    (Normal (Return (Failure (failure_message e))),
     if decide (err_name e = "AbortError") then h
     else with_loading false (with_error (Some (err_message e)) h)).
Proof. unfold execute_catch, failure_message. by case_decide. Qed.

Lemma execute_fetched_run key p h :
  execute_fetched key p h =
    match p with
    | Fulfilled response =>
        if ok response then (Normal (Await (AwaitJson key)), h)
        else execute_catch (Error ("HTTP error! status: " +:+ pretty (status response))) h
    | Rejected e => execute_catch e h
    end.
Proof.
  unfold execute_fetched, try_catch, bind, await. destruct p as [response|e]; simpl; [|done].
  by destruct (ok response).
Qed.

Lemma execute_parsed_run key p now h :
  execute_parsed key p now h =
    match p with
    | Fulfilled result =>
        (Normal (Return (Success result)),
         with_loading false
           (with_data result
              (with_cache (<[key := {| entry_data := result; timestamp := now |}]> (cacheRef h)) h)))
    | Rejected e => execute_catch e h
    end.
Proof. by destruct p. Qed.

End Pieces.



(** ** One event at a time *)

Section Steps.

Variable cfg : config.

Implicit Types (h : hook) (c : nat) (key : string) (ev : event).

Lemma invoke_execute_hit u o now h cached :
  cacheRef h !! cacheKey u o = Some cached ->
  now - timestamp cached < cacheTime cfg ->
  invoke (controllers h) (execute cfg u o now) h =
    finished (controllers h) (Success (entry_data cached))
      (with_error None (with_data (entry_data cached) (entered h))).
Proof. intros Hc Hfresh. unfold invoke. by erewrite execute_hit. Qed.

Lemma invoke_execute_miss u o now h :
  match cacheRef h !! cacheKey u o with
  | Some cached => cacheTime cfg <= now - timestamp cached
  | None => True
  end ->
  invoke (controllers h) (execute cfg u o now) h =
    suspended (controllers h) (AwaitFetch (cacheKey u o))
      (with_network (network h ++ [(u, fetch_init o (controllers h))])
         (with_error None (with_loading true (entered h)))).
Proof. intros Hc. unfold invoke. by rewrite execute_miss. Qed.

(** The two ways an invocation of [execute] can go. *)
Lemma invoke_execute_cases u o now h :
  (exists cached,
      cacheRef h !! cacheKey u o = Some cached /\
      now - timestamp cached < cacheTime cfg /\
      invoke (controllers h) (execute cfg u o now) h =
        finished (controllers h) (Success (entry_data cached))
          (with_error None (with_data (entry_data cached) (entered h)))) \/
  invoke (controllers h) (execute cfg u o now) h =
    suspended (controllers h) (AwaitFetch (cacheKey u o))
      (with_network (network h ++ [(u, fetch_init o (controllers h))])
         (with_error None (with_loading true (entered h)))).
Proof.
  destruct (cacheRef h !! cacheKey u o) as [cached|] eqn:Hc.
  - destruct (decide (now - timestamp cached < cacheTime cfg)).
    + left. exists cached. split_and!; [done..|]. by apply invoke_execute_hit.
    + right. apply invoke_execute_miss. rewrite Hc. lia.
  - right. apply invoke_execute_miss. by rewrite Hc.
Qed.

(** The settlement of an invocation whose controller was aborted: the
    [catch] block returns without a write. *)
Lemma step_settle_aborted h c ev :
  c ∈ aborted h -> settles c ev = true ->
  step cfg h ev = h \/
  (is_Some (frames h !! c) /\ step cfg h ev = finished c (Failure "Request cancelled") h).
Proof.
  intros Hab Hev. destruct ev as [| |c' p|c' p now| |]; try done; simpl in Hev;
    apply bool_decide_eq_true_1 in Hev; subst c'; simpl.
  - destruct (frames h !! c) as [[key|key]|] eqn:Hf; [|by left..].
    right. split; [by eexists|].
    unfold invoke, observed. rewrite decide_True by done. reflexivity.
  - destruct (frames h !! c) as [[key|key]|] eqn:Hf; [by left| |by left].
    right. split; [by eexists|].
    unfold invoke, observed. rewrite decide_True by done. reflexivity.
Qed.

Lemma invoke_refetch now h :
  let h0 := with_cache (delete (cacheKey (url cfg) (options cfg)) (cacheRef h)) h in
  invoke (controllers h) (refetch cfg now) h =
    invoke (controllers h0) (execute cfg (url cfg) (options cfg) now) h0.
Proof. reflexivity. Qed.

(** A call as an invocation of [execute] on the cache it finds. *)
Lemma step_call h ev :
  is_call ev = true ->
  exists u o now h0,
    step cfg h ev = invoke (controllers h0) (execute cfg u o now) h0 /\
    (h0 = h \/ exists k, h0 = with_cache (delete k (cacheRef h)) h).
Proof.
  destruct ev as [u o now|now| | | |]; try done; intros _; simpl.
  - eexists _, _, _, h. eauto.
  - rewrite invoke_refetch.
    exists (url cfg), (options cfg), now,
      (with_cache (delete (cacheKey (url cfg) (options cfg)) (cacheRef h)) h).
    split; [reflexivity|]. eauto.
Qed.

(** What a call does to the controllers and to the waiting invocations. *)
Lemma step_call_control h ev :
  is_call ev = true ->
  let h' := step cfg h ev in
  abortControllerRef h' = Some (controllers h) /\
  controllers h' = S (controllers h) /\
  aborted h' = aborted (entered h) /\
  (forall c, c ≠ controllers h -> frames h' !! c = frames h !! c).
Proof.
  intros Hev. destruct (step_call h ev Hev) as (u & o & now & h0 & -> & Hh0).
  assert (controllers h0 = controllers h /\ abortControllerRef h0 = abortControllerRef h /\
          aborted h0 = aborted h /\ frames h0 = frames h) as (Hc & Hr & Ha & Hf).
  { destruct Hh0 as [->|[k ->]]; done. }
  clear Hh0. simpl.
  destruct (invoke_execute_cases u o now h0) as [(cached & _ & _ & ->)| ->];
    unfold finished, suspended, entered, abort_current; rewrite Hr, Hc;
    destruct (abortControllerRef h); simpl; rewrite ?Ha, ?Hf, ?Hc;
    split_and!; try done; intros c Hne;
    by rewrite ?lookup_delete_ne, ?lookup_insert_ne.
Qed.

(** A settlement leaves the controllers alone and wakes no invocation. *)
Lemma step_settlement_control h ev :
  is_settlement ev = true ->
  let h' := step cfg h ev in
  abortControllerRef h' = abortControllerRef h /\
  controllers h' = controllers h /\
  aborted h' = aborted h /\
  network h' = network h /\
  rejected h' = rejected h /\
  (forall c, is_Some (frames h' !! c) -> is_Some (frames h !! c)).
Proof.
  destruct ev as [| |c p|c p now| |]; try done; intros _; simpl.
  - destruct (frames h !! c) as [[key|key]|] eqn:Hf; [|done..].
    unfold invoke. destruct (observed h c p) as [response|e]; simpl.
    + unfold_hook. simpl. destruct (ok response); simpl; split_and!; try done.
      * intros c'. destruct (decide (c = c')) as [<-|]; [by rewrite Hf|].
        by rewrite lookup_insert_ne.
      * intros c'. destruct (decide (c = c')) as [<-|]; [by rewrite Hf|].
        by rewrite lookup_delete_ne.
    + unfold_hook. simpl. case_decide; simpl; split_and!; try done;
        (intros c'; destruct (decide (c = c')) as [<-|]; [by rewrite Hf|];
         by rewrite lookup_delete_ne).
  - destruct (frames h !! c) as [[key|key]|] eqn:Hf; [done| |done].
    unfold invoke. destruct (observed h c p) as [result|e]; simpl.
    + unfold_hook. simpl. split_and!; try done.
      intros c'. destruct (decide (c = c')) as [<-|]; [by rewrite Hf|].
      by rewrite lookup_delete_ne.
    + unfold_hook. simpl. case_decide; simpl; split_and!; try done;
        (intros c'; destruct (decide (c = c')) as [<-|]; [by rewrite Hf|];
         by rewrite lookup_delete_ne).
Qed.

Lemma step_Rerun h now :
  step cfg h (Rerun now) =
    if immediate cfg then step cfg (step cfg h Cleanup) (Execute None None now)
    else step cfg h Cleanup.
Proof. simpl. unfold effect. by destruct (immediate cfg). Qed.

Lemma mount_unfold now :
  mount cfg now =
    if immediate cfg then step cfg (initial) (Execute None None now) else initial.
Proof. unfold mount, effect. by destruct (immediate cfg). Qed.

Lemma step_Cleanup_fields h :
  let h' := step cfg h Cleanup in
  view h' = view h /\ cacheRef h' = cacheRef h /\
  abortControllerRef h' = abortControllerRef h /\ controllers h' = controllers h /\
  frames h' = frames h /\ network h' = network h /\ returned h' = returned h /\
  rejected h' = rejected h /\
  aborted h' =
    match abortControllerRef h with Some c => {[c]} ∪ aborted h | None => aborted h end.
Proof.
  simpl. unfold cleanup, abort_current.
  by destruct (abortControllerRef h) eqn:Hc.
Qed.

(** ** The invariant *)

Lemma invariant_initial : invariant initial.
Proof. split; simpl; intros c; try intros f; by rewrite ?lookup_empty. Qed.

Lemma invariant_call h ev : is_call ev = true -> invariant h -> invariant (step cfg h ev).
Proof.
  intros Hev [Hfr Hsup Hcur Hab].
  destruct (step_call_control h ev Hev) as (Hr & Hc & Ha & Hf).
  destruct (entered_fields h) as (_ & _ & _ & _ & _ & _ & _ & _ & _ & _ & Hab').
  rewrite Hab' in Ha. clear Hab'.
  split; rewrite ?Hr, ?Hc, ?Ha.
  - intros c f Hcf. destruct (decide (c = controllers h)) as [->|Hne]; [lia|].
    rewrite Hf in Hcf by done. apply Hfr in Hcf. lia.
  - intros c f Hcf Hne. assert (c ≠ controllers h) as Hne' by congruence.
    rewrite Hf in Hcf by done.
    destruct (abortControllerRef h) as [c0|] eqn:Hc0.
    + destruct (decide (c0 = c)) as [->|]; [by apply elem_of_union_l, elem_of_singleton|].
      apply elem_of_union_r. eapply Hsup; [done|congruence].
    + by eapply Hsup.
  - intros c [= <-]. lia.
  - intros c Hin. destruct (abortControllerRef h) as [c0|] eqn:Hc0.
    + apply elem_of_union in Hin as [->%elem_of_singleton|Hin].
      * specialize (Hcur _ eq_refl). lia.
      * apply Hab in Hin. lia.
    + apply Hab in Hin. lia.
Qed.

Lemma invariant_settlement h ev :
  is_settlement ev = true -> invariant h -> invariant (step cfg h ev).
Proof.
  intros Hev [Hfr Hsup Hcur Hab].
  destruct (step_settlement_control h ev Hev) as (Hr & Hc & Ha & _ & _ & Hf).
  split; rewrite ?Hr, ?Hc, ?Ha; [| |done..].
  - intros c f Hcf. destruct (Hf c) as [f' Hf']; [by eexists|]. by eapply Hfr.
  - intros c f Hcf. destruct (Hf c) as [f' Hf']; [by eexists|]. by eapply Hsup.
Qed.

Lemma invariant_Cleanup h : invariant h -> invariant (step cfg h Cleanup).
Proof.
  intros [Hfr Hsup Hcur Hab].
  destruct (step_Cleanup_fields h) as (_ & _ & Hr & Hc & Hf & _ & _ & _ & Ha).
  split; rewrite ?Hr, ?Hc, ?Ha, ?Hf; [done| |done|].
  - intros c f Hcf Hne. destruct (abortControllerRef h); [|by eapply Hsup].
    apply elem_of_union_r. by eapply Hsup.
  - intros c Hin. destruct (abortControllerRef h) as [c0|] eqn:Hc0; [|by apply Hab].
    apply elem_of_union in Hin as [->%elem_of_singleton|Hin]; [by apply Hcur|by apply Hab].
Qed.

Lemma invariant_step h ev : invariant h -> invariant (step cfg h ev).
Proof.
  intros Hinv. destruct ev as [u o now|now|c p|c p now| |now].
  - by apply invariant_call.
  - by apply invariant_call.
  - by apply invariant_settlement.
  - by apply invariant_settlement.
  - by apply invariant_Cleanup.
  - rewrite step_Rerun. destruct (immediate cfg).
    + apply invariant_call; [done|]. by apply invariant_Cleanup.
    + by apply invariant_Cleanup.
Qed.

Lemma reachable_invariant h : reachable cfg h -> invariant h.
Proof.
  induction 1 as [now|h ev _ IH].
  - rewrite mount_unfold. destruct (immediate cfg).
    + apply invariant_call; [done|apply invariant_initial].
    + apply invariant_initial.
  - by apply invariant_step.
Qed.

(** ** A cancelled invocation leaves no trace *)

Lemma aborted_step h ev c : c ∈ aborted h -> c ∈ aborted (step cfg h ev).
Proof.
  intros Hin.
  assert (forall h0, c ∈ aborted h0 -> c ∈ aborted (step cfg h0 Cleanup)) as Hcl.
  { intros h0 Hin0.
    destruct (step_Cleanup_fields h0) as (_ & _ & _ & _ & _ & _ & _ & _ & ->).
    destruct (abortControllerRef h0); [by apply elem_of_union_r|done]. }
  assert (forall h0 ev0, is_call ev0 = true -> c ∈ aborted h0 -> c ∈ aborted (step cfg h0 ev0))
    as Hcall.
  { intros h0 ev0 Hev0 Hin0.
    destruct (step_call_control h0 ev0 Hev0) as (_ & _ & -> & _).
    destruct (entered_fields h0) as (_ & _ & _ & _ & _ & _ & _ & _ & _ & _ & ->).
    destruct (abortControllerRef h0); [by apply elem_of_union_r|done]. }
  destruct ev as [u o now|now|c' p|c' p now| |now].
  - by apply Hcall.
  - by apply Hcall.
  - by destruct (step_settlement_control h (FetchSettled c' p) eq_refl) as (_ & _ & -> & _).
  - by destruct (step_settlement_control h (BodySettled c' p now) eq_refl) as (_ & _ & -> & _).
  - by apply Hcl.
  - rewrite step_Rerun. destruct (immediate cfg); [apply Hcall; [done|]|]; by apply Hcl.
Qed.

Lemma aborted_run evs h c : c ∈ aborted h -> c ∈ aborted (run cfg h evs).
Proof.
  revert h. induction evs as [|ev evs IH]; intros h Hin; [done|].
  simpl. apply IH. by apply aborted_step.
Qed.

(** A call aborts the controller of every invocation that waits. *)
Lemma call_supersedes h ev c :
  invariant h -> is_Some (frames h !! c) -> is_call ev = true ->
  c ∈ aborted (step cfg h ev).
Proof.
  intros [Hfr Hsup Hcur Hab] [f Hf] Hev.
  destruct (step_call_control h ev Hev) as (_ & _ & -> & _).
  destruct (entered_fields h) as (_ & _ & _ & _ & _ & _ & _ & _ & _ & _ & ->).
  destruct (abortControllerRef h) as [c0|] eqn:Hc0.
  - destruct (decide (c0 = c)) as [->|]; [by apply elem_of_union_l, elem_of_singleton|].
    apply elem_of_union_r. eapply Hsup; [done|congruence].
  - by eapply Hsup.
Qed.











(** ** Nothing escapes, nothing is retried *)

Lemma rejected_step h ev : rejected (step cfg h ev) = rejected h.
Proof.
  assert (forall h0, rejected (step cfg h0 Cleanup) = rejected h0) as Hcl.
  { intros h0. by destruct (step_Cleanup_fields h0) as (_ & _ & _ & _ & _ & _ & _ & -> & _). }
  assert (forall h0 ev0, is_call ev0 = true -> rejected (step cfg h0 ev0) = rejected h0) as Hcall.
  { intros h0 ev0 Hev0.
    destruct (step_call h0 ev0 Hev0) as (u & o & now & h1 & -> & Hh1).
    assert (rejected h1 = rejected h0) as <- by (by destruct Hh1 as [->|[k ->]]).
    destruct (invoke_execute_cases u o now h1) as [(cached & _ & _ & ->)| ->]; simpl;
      apply (entered_fields h1). }
  destruct ev as [u o now|now|c p|c p now| |now].
  - by apply Hcall.
  - by apply Hcall.
  - by destruct (step_settlement_control h (FetchSettled c p) eq_refl) as (_ & _ & _ & _ & -> & _).
  - by destruct (step_settlement_control h (BodySettled c p now) eq_refl) as (_ & _ & _ & _ & -> & _).
  - apply Hcl.
  - rewrite step_Rerun. destruct (immediate cfg); [rewrite Hcall by done|]; apply Hcl.
Qed.

Lemma rejected_run evs h : rejected (run cfg h evs) = rejected h.
Proof.
  revert h. induction evs as [|ev evs IH]; intros h; [done|].
  simpl. rewrite IH. apply rejected_step.
Qed.

Lemma rejected_mount now : rejected (mount cfg now) = [].
Proof.
  rewrite mount_unfold. destruct (immediate cfg); [|done].
  by rewrite rejected_step.
Qed.

(** Only a call, or the effect of an instance with [immediate] set, sends
    a request, and it sends at most one. *)
Lemma network_call h ev :
  is_call ev = true ->
  network (step cfg h ev) = network h \/
  exists request, network (step cfg h ev) = (network h ++ [request])%list.
Proof.
  intros Hev. destruct (step_call h ev Hev) as (u & o & now & h1 & -> & Hh1).
  assert (network h1 = network h) as <- by (by destruct Hh1 as [->|[k ->]]).
  pose proof (entered_fields h1) as (_ & _ & _ & _ & _ & _ & _ & Hnet & _).
  destruct (invoke_execute_cases u o now h1) as [(cached & _ & _ & ->)| ->]; simpl.
  - by left.
  - right. by eexists.
Qed.

Lemma network_other h ev :
  is_call ev = false ->
  (ev = Cleanup \/ is_settlement ev = true \/ immediate cfg = false) ->
  network (step cfg h ev) = network h.
Proof.
  intros Hev Hother. destruct ev as [u o now|now|c p|c p now| |now]; try done.
  - by destruct (step_settlement_control h (FetchSettled c p) eq_refl) as (_ & _ & _ & -> & _).
  - by destruct (step_settlement_control h (BodySettled c p now) eq_refl) as (_ & _ & _ & -> & _).
  - by destruct (step_Cleanup_fields h) as (_ & _ & _ & _ & _ & -> & _).
  - destruct Hother as [?|[?|Him]]; try done.
    rewrite step_Rerun, Him.
    by destruct (step_Cleanup_fields h) as (_ & _ & _ & _ & _ & -> & _).
Qed.

(** ** Where [data] comes from *)

(** What an event does to [data] and to the results handed out: either
    [data] stays and nothing or a failure is returned, or a success is
    returned whose payload is the new [data]. *)
Lemma step_data h ev :
  let h' := step cfg h ev in
  (data h' = data h /\
   (returned h' = returned h \/ exists c e, returned h' = returned h ++ [(c, Failure e)])) \/
  (exists c, returned h' = returned h ++ [(c, Success (data h'))]).
Proof.
  assert (forall h0, data (step cfg h0 Cleanup) = data h0 /\
                     returned (step cfg h0 Cleanup) = returned h0) as Hcl.
  { intros h0.
    destruct (step_Cleanup_fields h0) as (Hv & _ & _ & _ & _ & _ & Hret & _).
    unfold view in Hv. by simplify_eq. }
  assert (forall h0 ev0, is_call ev0 = true ->
            (data (step cfg h0 ev0) = data h0 /\ returned (step cfg h0 ev0) = returned h0) \/
            (exists c, returned (step cfg h0 ev0)
                       = returned h0 ++ [(c, Success (data (step cfg h0 ev0)))])) as Hcall.
  { intros h0 ev0 Hev0.
    destruct (step_call h0 ev0 Hev0) as (u & o & now & h1 & -> & Hh1).
    assert (data h1 = data h0 /\ returned h1 = returned h0) as [<- <-]
      by (by destruct Hh1 as [->|[k ->]]).
    destruct (invoke_execute_cases u o now h1) as [(cached & _ & _ & ->)| ->];
      unfold finished, suspended, entered, abort_current;
      destruct (abortControllerRef h1); simpl; [right|right|left|left]; eauto. }
  destruct ev as [u o now|now|c p|c p now| |now]; intros h'; unfold h'.
  - destruct (Hcall h (Execute u o now) eq_refl) as [[-> ->]|?]; [left|right]; eauto.
  - destruct (Hcall h (Refetch now) eq_refl) as [[-> ->]|?]; [left|right]; eauto.
  - unfold step. destruct (frames h !! c) as [[key|key]|]; [|left; eauto..].
    unfold invoke. rewrite execute_fetched_run.
    destruct (observed h c p) as [response|e]; [destruct (ok response)|];
      rewrite ?execute_catch_run; repeat case_decide; simpl; left; eauto.
  - unfold step. destruct (frames h !! c) as [[key|key]|]; [left; eauto| |left; eauto].
    unfold invoke. rewrite execute_parsed_run.
    destruct (observed h c p) as [result|e];
      rewrite ?execute_catch_run; repeat case_decide; simpl; [right|left..]; eauto.
  - destruct (Hcl h) as [-> ->]. left. eauto.
  - rewrite step_Rerun. destruct (Hcl h) as [Hd Hret]. destruct (immediate cfg).
    + destruct (Hcall (step cfg h Cleanup) (Execute None None now) eq_refl) as [[-> ->]|[c Hc]].
      * left. rewrite Hd, Hret. eauto.
      * right. exists c. by rewrite Hc, Hret.
    + rewrite Hd, Hret. left. eauto.
Qed.

(** [data] is [null] until some invocation returns a success, and then it
    is the payload of one. *)
Lemma data_origin h :
  reachable cfg h -> data h = JNull \/ exists c, (c, Success (data h)) ∈ returned h.
Proof.
  induction 1 as [now|h ev _ IH].
  - rewrite mount_unfold. destruct (immediate cfg); [|by left].
    destruct (step_data initial (Execute None None now)) as [[-> _]|[c ->]]; [by left|].
    right. exists c. apply elem_of_app. right. by apply list_elem_of_singleton.
  - destruct (step_data h ev) as [[-> Hret]|[c ->]].
    + destruct IH as [?|[c Hc]]; [by left|right]. exists c.
      destruct Hret as [->|(c' & e & ->)]; [done|]. apply elem_of_app. by left.
    + right. exists c. apply elem_of_app. right. by apply list_elem_of_singleton.
Qed.

End Steps.






(** * The claims *)

Section Claims.

Variable cfg : config.

Implicit Types (h : hook) (c : nat) (key : string) (ev : event).

Lemma reachable_run evs h : reachable cfg h -> reachable cfg (run cfg h evs).
Proof.
  revert h. induction evs as [|ev evs IH]; intros h Hreach; [done|].
  simpl. apply IH. by constructor.
Qed.


(** The controller that a call is about to create has not been aborted. *)
Lemma fresh_not_aborted h : invariant h -> controllers h ∉ aborted (entered h).
Proof.
  intros [Hfr Hsup Hcur Hab] Hin.
  destruct (entered_fields h) as (_ & _ & _ & _ & _ & _ & _ & _ & _ & _ & Ha).
  rewrite Ha in Hin. destruct (abortControllerRef h) as [c0|] eqn:Hc0.
  - apply elem_of_union in Hin as [Heq%elem_of_singleton|Hin].
    + specialize (Hcur _ eq_refl). lia.
    + apply Hab in Hin. lia.
  - apply Hab in Hin. lia.
Qed.

(** What a call that finds a fresh entry does. *)
Lemma step_cache_hit h u o now cached :
  cacheRef h !! cacheKey (default (url cfg) u) (default (options cfg) o) = Some cached ->
  now - timestamp cached < cacheTime cfg ->
  let h' := step cfg h (Execute u o now) in
  network h' = network h /\
  returned h' = (returned h ++ [(controllers h, Success (entry_data cached))])%list /\
  data h' = entry_data cached /\ error h' = None /\ loading h' = loading h /\
  cacheRef h' = cacheRef h /\ frames h' !! controllers h = None.
Proof.
  intros Hk Hfresh h'. unfold h', step. erewrite invoke_execute_hit by done.
  unfold finished, entered, abort_current.
  destruct (abortControllerRef h); simpl; split_and!; try done; apply lookup_delete_eq.
Qed.

(** A waiting invocation that is not cancelled, answered in full with
    success. *)
Lemma answered_in_full h c key response payload now' :
  frames h !! c = Some (AwaitFetch key) ->
  c ∉ aborted h ->
  ok response = true ->
  run cfg h [FetchSettled c (Fulfilled response); BodySettled c (Fulfilled payload) now'] =
    finished c (Success payload)
      (with_loading false
         (with_data payload
            (with_cache (<[key := {| entry_data := payload; timestamp := now' |}]> (cacheRef h))
               (suspended c (AwaitJson key) h)))).
Proof.
  intros Hw Hab Hok.
  set (h2 := step cfg h (FetchSettled c (Fulfilled response))).
  assert (h2 = suspended c (AwaitJson key) h) as Hh2.
  { unfold h2, step. rewrite Hw. unfold invoke, observed.
    rewrite decide_False by done. by rewrite execute_fetched_run, Hok. }
  change (run cfg h _) with (step cfg h2 (BodySettled c (Fulfilled payload) now')).
  unfold step.
  assert (frames h2 !! c = Some (AwaitJson key)) as ->
    by (rewrite Hh2; simpl; apply lookup_insert_eq).
  unfold invoke, observed. rewrite decide_False by (by rewrite Hh2).
  by rewrite execute_parsed_run, Hh2.
Qed.


(** C3: [refetch()] first deletes the cache entry of the default
    (endpoint, options) pair and then runs [execute] with the defaults; so,
    whatever the cache held, it sends exactly one request, the default one,
    and waits for its answer. *)
Theorem refetch_always_fetches h now :
  let key := cacheKey (url cfg) (options cfg) in
  let h' := step cfg h (Refetch now) in
  h' = step cfg (with_cache (delete key (cacheRef h)) h) (Execute None None now) /\
  network h' = (network h ++ [(url cfg, fetch_init (options cfg) (controllers h))])%list /\
  frames h' !! controllers h = Some (AwaitFetch key) /\
  cacheRef h' = delete key (cacheRef h) /\
  loading h' = true /\ error h' = None.
Proof.
  intros key h'. unfold h', step. rewrite invoke_refetch. split; [done|].
  rewrite invoke_execute_miss by (simpl; by rewrite lookup_delete_eq).
  unfold suspended, entered, abort_current. simpl.
  destruct (abortControllerRef h); simpl; split_and!; try done; apply lookup_insert_eq.
Qed.

(** C4: a call that finds an entry whose age has reached the time-to-live
    sends a request, and when that request succeeds the entry under the key
    is exactly the new payload with the time of its arrival: the map is the
    old one with that key overwritten. *)
Theorem stale_entry_is_refetched_and_replaced h u o now cached response payload now' :
  reachable cfg h ->
  let customUrl := default (url cfg) u in
  let customOptions := default (options cfg) o in
  let key := cacheKey customUrl customOptions in
  cacheRef h !! key = Some cached ->
  cacheTime cfg <= now - timestamp cached ->
  ok response = true ->
  let c := controllers h in
  let h1 := step cfg h (Execute u o now) in
  let h3 := run cfg h1 [FetchSettled c (Fulfilled response);
                        BodySettled c (Fulfilled payload) now'] in
  network h1 = (network h ++ [(customUrl, fetch_init customOptions c)])%list /\
  cacheRef h1 = cacheRef h /\
  network h3 = network h1 /\
  cacheRef h3 = <[key := {| entry_data := payload; timestamp := now' |}]> (cacheRef h) /\
  cacheRef h3 !! key = Some {| entry_data := payload; timestamp := now' |} /\
  view h3 = (payload, false, None) /\
  returned h3 = (returned h ++ [(c, Success payload)])%list.
Proof.
  intros Hreach customUrl customOptions key Hk Hstale Hok c h1 h3.
  pose proof (fresh_not_aborted h (reachable_invariant cfg h Hreach)) as Hfresh.
  assert (h1 = suspended c (AwaitFetch key)
                 (with_network (network h ++ [(customUrl, fetch_init customOptions c)])
                    (with_error None (with_loading true (entered h))))) as Hh1.
  { unfold h1, step. apply invoke_execute_miss. fold customUrl customOptions key.
    by rewrite Hk. }
  assert (h3 = run cfg h1 [FetchSettled c (Fulfilled response);
                           BodySettled c (Fulfilled payload) now']) as -> by done.
  rewrite (answered_in_full h1 c key) by (rewrite ?Hh1; simpl; by rewrite ?lookup_insert_eq).
  rewrite Hh1. clear. unfold finished, suspended, view, entered, abort_current.
  destruct (abortControllerRef h); simpl; split_and!; try done; apply lookup_insert_eq.
Qed.


(** C5: once a call has started while invocation [c] waits, the answer to
    [c], whenever and whatever it is, makes [c] return the failure
    "Request cancelled" and writes nothing: state, cache and requests stay
    as they are, and the promise of [c] does not reject. *)
Theorem superseded_call_is_cancelled h c f ev evs f' sev :
  reachable cfg h ->
  frames h !! c = Some f ->
  is_call ev = true ->
  let h2 := run cfg (step cfg h ev) evs in
  frames h2 !! c = Some f' ->
  answers c f' sev = true ->
  let h3 := step cfg h2 sev in
  returned h3 = (returned h2 ++ [(c, Failure "Request cancelled")])%list /\
  view h3 = view h2 /\
  cacheRef h3 = cacheRef h2 /\
  network h3 = network h2 /\
  rejected h3 = rejected h2 /\
  frames h3 !! c = None.
Proof.
  intros Hreach Hf Hev h2 Hf' Hsev h3.
  pose proof (reachable_invariant cfg h Hreach) as Hinv.
  assert (c ∈ aborted h2) as Hab.
  { apply aborted_run, call_supersedes; [done|by eexists|done]. }
  assert (h3 = finished c (Failure "Request cancelled") h2) as ->.
  { unfold h3. destruct f' as [key|key], sev as [| |c' p|c' p now| |]; try done;
      simpl in Hsev; apply bool_decide_eq_true_1 in Hsev; subst c';
      unfold step; rewrite Hf'; unfold invoke, observed;
      by rewrite decide_True. }
  simpl. split_and!; try done. apply lookup_delete_eq.
Qed.

(** C6: when the answer to a waiting invocation that was not cancelled has
    a status outside 200-299, the [try] block throws an [Error] whose
    message carries the status;  the invocation returns a failure with that
    message, [error] is that message, [loading] is false, no request is
    sent, and [data] is what it was: [null], or the payload of an earlier
    success. *)
Theorem non_success_status_is_reported h c key response :
  reachable cfg h ->
  frames h !! c = Some (AwaitFetch key) ->
  c ∉ aborted h ->
  ok response = false ->
  let message := "HTTP error! status: " +:+ pretty (status response) in
  let h' := step cfg h (FetchSettled c (Fulfilled response)) in
  execute_fetched key (Fulfilled response) h = execute_catch (Error message) h /\
  returned h' = returned h ++ [(c, Failure message)] /\
  error h' = Some message /\
  loading h' = false /\
  data h' = data h /\
  (data h = JNull \/ exists c', (c', Success (data h)) ∈ returned h) /\
  cacheRef h' = cacheRef h /\
  network h' = network h /\
  rejected h' = rejected h.
Proof.
  intros Hreach Hw Hab Hok message h'.
  assert (execute_fetched key (Fulfilled response) h = execute_catch (Error message) h) as Hrun.
  { by rewrite execute_fetched_run, Hok. }
  split; [done|].
  unfold h', step. rewrite Hw. unfold invoke, observed.
  rewrite decide_False by done. rewrite Hrun, execute_catch_run.
  simpl. split_and!; try done. by apply (data_origin cfg).
Qed.

(** An answer for an invocation that does not wait changes nothing. *)
Lemma step_settle_absent h c ev :
  frames h !! c = None -> settles c ev = true -> step cfg h ev = h.
Proof.
  intros Hnone Hev. destruct ev as [| |c' p|c' p now| |]; try done;
    simpl in Hev; apply bool_decide_eq_true_1 in Hev; subst c'; simpl;
    by rewrite Hnone.
Qed.

Lemma settles_of_settlement ev : is_settlement ev = true -> exists c, settles c ev = true.
Proof.
  destruct ev as [| |c p|c p now| |]; try done; intros _; exists c;
    by apply bool_decide_eq_true_2.
Qed.

(** When every waiting invocation is cancelled, answers change nothing
    and hand out nothing but the cancellation. *)
Lemma all_cancelled_frozen evs h :
  (forall c, is_Some (frames h !! c) -> c ∈ aborted h) ->
  forallb is_settlement evs = true ->
  view (run cfg h evs) = view h /\
  cacheRef (run cfg h evs) = cacheRef h /\
  network (run cfg h evs) = network h /\
  (forall c r, (c, r) ∈ returned (run cfg h evs) ->
               (c, r) ∈ returned h \/ r = Failure "Request cancelled").
Proof.
  revert h. induction evs as [|ev evs IH]; intros h Hall Hevs; [by auto|].
  simpl in Hevs. apply andb_true_iff in Hevs as [Hev Hevs].
  destruct (settles_of_settlement ev Hev) as [c Hc].
  simpl. destruct (frames h !! c) as [f|] eqn:Hf.
  - destruct (step_settle_aborted cfg h c ev) as [->|[_ ->]];
      [apply Hall; by eexists|done|by apply IH|].
    destruct (IH (finished c (Failure "Request cancelled") h)) as (-> & -> & -> & Hret);
      [|done|].
    + intros c' [f' Hf']. simpl in *. apply Hall.
      destruct (decide (c' = c)) as [->|Hne]; [by eexists|].
      rewrite lookup_delete_ne in Hf' by done. by eexists.
    + split_and!; try done. intros c' r Hin.
      destruct (Hret c' r Hin) as [Hold|?]; [|by right]. simpl in Hold.
      apply elem_of_app in Hold as [?|Hnew]; [by left|right].
      apply list_elem_of_singleton in Hnew. congruence.
  - rewrite (step_settle_absent h c ev) by done. by apply IH.
Qed.

(** C8: the cleanup aborts the controller of every invocation that waits,
    and whatever answers arrive afterwards, the state, the cache and the
    requests sent stay as they were at the cleanup, the invocations that
    return do so with the cancellation, and no promise of [execute]
    rejects. *)
Theorem teardown_cancels_and_freezes h evs :
  reachable cfg h ->
  forallb is_settlement evs = true ->
  let h1 := step cfg h Cleanup in
  (forall c, is_Some (frames h !! c) -> c ∈ aborted h1) /\
  view (run cfg h1 evs) = view h /\
  cacheRef (run cfg h1 evs) = cacheRef h /\
  network (run cfg h1 evs) = network h /\
  (forall c r, (c, r) ∈ returned (run cfg h1 evs) ->
               (c, r) ∈ returned h \/ r = Failure "Request cancelled") /\
  rejected (run cfg h1 evs) = [].
Proof.
  intros Hreach Hevs h1.
  pose proof (reachable_invariant cfg h Hreach) as [Hfr Hsup Hcur Hab].
  destruct (step_Cleanup_fields cfg h) as (Hv & Hc & Hr & Hn & Hf & Hnet & Hret & Hrej & Ha).
  fold h1 in Hv, Hc, Hr, Hn, Hf, Hnet, Hret, Hrej, Ha.
  assert (forall c, is_Some (frames h !! c) -> c ∈ aborted h1) as Hall.
  { intros c [f Hw]. rewrite Ha.
    destruct (abortControllerRef h) as [c0|] eqn:Hc0; [|by eapply Hsup].
    destruct (decide (c0 = c)) as [->|]; [by apply elem_of_union_l, elem_of_singleton|].
    apply elem_of_union_r. eapply Hsup; [done|congruence]. }
  split; [done|].
  destruct (all_cancelled_frozen evs h1) as (-> & -> & -> & Hres);
    [by rewrite Hf|done|].
  rewrite Hret in Hres. split_and!; try done.
  rewrite rejected_run, Hrej. clear -Hreach.
  induction Hreach as [now|h ev _ IH]; [apply rejected_mount|by rewrite rejected_step].
Qed.

(** After a call that found a fresh entry nothing is in flight any more,
    so no answer will ever write the state again: [loading] keeps the value
    it had when the call was made. *)
Lemma cache_hit_freezes h u o now cached evs :
  reachable cfg h ->
  cacheRef h !! cacheKey (default (url cfg) u) (default (options cfg) o) = Some cached ->
  now - timestamp cached < cacheTime cfg ->
  forallb is_settlement evs = true ->
  view (run cfg (step cfg h (Execute u o now)) evs) = (entry_data cached, loading h, None).
Proof.
  intros Hreach Hk Hfresh Hevs.
  pose proof (reachable_invariant cfg h Hreach) as Hinv.
  destruct (step_cache_hit h u o now cached Hk Hfresh) as (_ & _ & Hd & He & Hl & _ & Hgone).
  destruct (all_cancelled_frozen evs (step cfg h (Execute u o now))) as (-> & _); [|done|].
  - intros c Hw. destruct (decide (c = controllers h)) as [->|Hne].
    + rewrite Hgone in Hw. by destruct Hw.
    + apply call_supersedes; [done| |done].
      by destruct (step_call_control cfg h (Execute u o now) eq_refl) as (_ & _ & _ & <-).
  - unfold view. by rewrite Hd, He, Hl.
Qed.

Lemma network_step h ev :
  network (step cfg h ev) = network h \/
  exists request, network (step cfg h ev) = network h ++ [request].
Proof.
  destruct ev as [u o now|now|c p|c p now| |now].
  - by apply network_call.
  - by apply network_call.
  - left. by apply network_other; [|right; left].
  - left. by apply network_other; [|right; left].
  - left. by apply network_other; [|left].
  - rewrite step_Rerun.
    assert (network (step cfg h Cleanup) = network h) as Hcl
      by (by apply network_other; [|left]).
    destruct (immediate cfg); [|by left].
    rewrite <- Hcl. by apply network_call.
Qed.

(** C7: no piece of [execute] lets an exception escape: the call, the
    continuation after [fetch] and the continuation after
    [response.json()] all end normally, whatever the transport answered.  A
    rejection and a non-success status go through the [catch] block, which
    returns a failure and, unless the rejection is an [AbortError], writes
    its message to [error].  So no promise of [execute] or [refetch] ever
    rejects.  An answer never sends a request (nothing is retried) and any
    event sends at most one. *)
Theorem execute_never_throws :
  (forall u o now h, exists pr, (execute cfg u o now h).1 = Normal pr) /\
  (forall now h, exists pr, (refetch cfg now h).1 = Normal pr) /\
  (forall e h,
      execute_catch e h =
        (Normal (Return (Failure (failure_message e))),
         if decide (err_name e = "AbortError") then h
         else with_loading false (with_error (Some (err_message e)) h))) /\
  (forall key p h,
      execute_fetched key p h =
        match p with
        | Fulfilled response =>
            if ok response then (Normal (Await (AwaitJson key)), h)
            else execute_catch (Error ("HTTP error! status: " +:+ pretty (status response))) h
        | Rejected e => execute_catch e h
        end) /\
  (forall key p now h,
      execute_parsed key p now h =
        match p with
        | Fulfilled result =>
            (Normal (Return (Success result)),
             with_loading false
               (with_data result
                  (with_cache
                     (<[key := {| entry_data := result; timestamp := now |}]> (cacheRef h)) h)))
        | Rejected e => execute_catch e h
        end) /\
  (forall h ev, rejected (step cfg h ev) = rejected h) /\
  (forall now evs, rejected (run cfg (mount cfg now) evs) = []) /\
  (forall h c p, network (step cfg h (FetchSettled c p)) = network h) /\
  (forall h c p now, network (step cfg h (BodySettled c p now)) = network h) /\
  (forall h ev,
      network (step cfg h ev) = network h \/
      exists request, network (step cfg h ev) = network h ++ [request]).
Proof.
  split_and!.
  - apply execute_normal.
  - intros now h. unfold refetch, bind, cache_delete. apply execute_normal.
  - apply execute_catch_run.
  - apply execute_fetched_run.
  - apply execute_parsed_run.
  - apply rejected_step.
  - intros now evs. by rewrite rejected_run, rejected_mount.
  - intros h c p. by apply network_other; [|right; left].
  - intros h c p now. by apply network_other; [|right; left].
  - apply network_step.
Qed.

End Claims.

(** ** The derived hooks *)

Lemma method_hook_waits url0 (o : obj) method :
  let cfg := useApi url0 (Some (obj_set "method" (JStr method) (spread (JObj o) [])))
               (Some false) None in
  immediate cfg = false /\
  url cfg = url0 /\
  obj_get "method" (options cfg) = JStr method /\
  (forall now, mount cfg now = initial) /\
  (forall h ev, is_call ev = true \/ network (step cfg h ev) = network h) /\
  (forall h now, step cfg h (Rerun now) = step cfg h Cleanup) /\
  (forall c, obj_get "method" (fetch_init (options cfg) c) = JStr method).
Proof.
  intros cfg. split_and!; try done.
  - apply obj_get_set_eq.
  - intros h ev. destruct (is_call ev) eqn:Hev; [by left|right].
    apply network_other; [done|]. by right; right.
  - intros c. unfold fetch_init. rewrite !obj_get_set_ne by done.
    simpl. rewrite spread_id.
    + apply obj_get_set_eq.
    + apply obj_set_NoDup, spread_NoDup, NoDup_nil_2.
Qed.

(** C10: [usePost], [usePut] and [useDelete] build an executor with
    [immediate] false and their method in the default options, whatever
    options were passed.  Creating it leaves the instance as it was before
    the effect: no request, no waiting invocation.  Afterwards the effect
    only ever runs its cleanup, and only a call of [execute] or [refetch]
    by the caller sends a request;  the one sent for the defaults carries
    the method. *)
Theorem derived_hooks_wait_for_the_caller url0 (o : option obj) :
  Forall
    (fun hook_method : config * string =>
       let cfg := hook_method.1 in
       let method := hook_method.2 in
       immediate cfg = false /\
       url cfg = url0 /\
       obj_get "method" (options cfg) = JStr method /\
       (forall now, mount cfg now = initial) /\
       (forall h ev, is_call ev = true \/ network (step cfg h ev) = network h) /\
       (forall h now, step cfg h (Rerun now) = step cfg h Cleanup) /\
       (forall c, obj_get "method" (fetch_init (options cfg) c) = JStr method))
    [(usePost url0 o, "POST"); (usePut url0 o, "PUT"); (useDelete url0 o, "DELETE")].
Proof.
  repeat apply Forall_cons_2; [apply method_hook_waits..|apply Forall_nil_2].
Qed.





(** C1: the instance fetches and caches the default request; while a
    request for another endpoint is in flight ([loading] is true), the
    default request is asked for again inside the time-to-live.  That second
    call sends nothing, returns the cached payload, sets [data] and clears
    [error], but [loading] stays true, also after the superseded request
    was answered: nothing is left that would reset it. *)
Theorem cache_hit_leaves_loading_set :
  let before := run manual (mount manual 0) (cached_at_10 ++ [Execute (Some "/api/posts/2") None 20]) in
  let h := run manual (mount manual 0) hit_while_loading in
  cacheRef before !! cacheKey (url manual) (options manual)
    = Some {| entry_data := post1; timestamp := 10 |} /\
  30 - 10 < cacheTime manual /\
  network h = network before /\
  returned h = [(0, Success post1); (2, Success post1); (1, Failure "Request cancelled")]%nat /\
  frames h = ∅ /\
  view h = (post1, true, None).
Proof. vm_compute. split_and!; reflexivity. Qed.

(** C9: two different option objects for one endpoint have the same cache
    key, because [JSON.stringify] leaves out a property whose value is
    [undefined], although [fetch] is given different headers for them;  the
    call with the second is served, without a request, the payload that was
    cached for the first. *)
Theorem cache_key_collision :
  let h := run manual (mount manual 0) colliding in
  ("/api/me", anonymous) ≠ ("/api/me", bare) /\
  cacheKey "/api/me" anonymous = cacheKey "/api/me" bare /\
  fetch_init anonymous 0 ≠ fetch_init bare 0 /\
  network h = [("/api/me", fetch_init anonymous 0)] /\
  returned h = [(0, Success post1); (1, Success post1)]%nat /\
  data h = post1.
Proof. vm_compute. split_and!; (reflexivity || discriminate). Qed.


(** The entry cached at time 10 is asked for again at time 5000, with a
    time-to-live of 1000. *)
Lemma stale_entry_is_refetched_and_replaced_witness :
  let h := run short_lived (mount short_lived 0) cached_at_10 in
  let key := cacheKey (default (url short_lived) None) (default (options short_lived) None) in
  let cached := {| entry_data := post1; timestamp := 10 |} in
  let h1 := step short_lived h (Execute None None 5000) in
  let h3 := run short_lived h1
              [FetchSettled (controllers h) (Fulfilled {| status := 200 |});
               BodySettled (controllers h) (Fulfilled post1') 5007] in
  reachable short_lived h /\
  cacheRef h !! key = Some cached /\
  cacheTime short_lived <= 5000 - timestamp cached /\
  ok {| status := 200 |} = true /\
  cacheRef h3 !! key = Some {| entry_data := post1'; timestamp := 5007 |} /\
  view h3 = (post1', false, None).
Proof.
  intros h key cached h1 h3.
  assert (reachable short_lived h) as Hreach by apply reachable_run, reachable_mount.
  assert (cacheRef h !! key = Some cached) as Hk by (vm_compute; reflexivity).
  assert (cacheTime short_lived <= 5000 - timestamp cached) as Hstale
    by (vm_compute; discriminate).
  destruct (stale_entry_is_refetched_and_replaced short_lived h None None 5000
              cached {| status := 200 |} post1' 5007 Hreach Hk Hstale eq_refl)
    as (_ & _ & _ & _ & Hnew & Hview & _).
  split_and!; [exact Hreach|exact Hk|exact Hstale|reflexivity|exact Hnew|exact Hview].
Defined.

(** The eager instance is superseded while its first request is in flight;
    the answer to that request is a success. *)
Lemma superseded_call_is_cancelled_witness :
  let h := mount eager 0 in
  let h2 := run eager (step eager h (Refetch 5)) [FetchSettled 1 ok200] in
  reachable eager h /\
  frames h !! 0%nat = Some (AwaitFetch (cacheKey (url eager) (options eager))) /\
  frames h2 !! 0%nat = Some (AwaitFetch (cacheKey (url eager) (options eager))) /\
  returned (step eager h2 (FetchSettled 0 ok200)) = [(0%nat, Failure "Request cancelled")] /\
  view (step eager h2 (FetchSettled 0 ok200)) = view h2.
Proof.
  intros h h2.
  assert (reachable eager h) as Hreach by apply reachable_mount.
  assert (frames h !! 0%nat = Some (AwaitFetch (cacheKey (url eager) (options eager)))) as Hf
    by (vm_compute; reflexivity).
  assert (frames h2 !! 0%nat = Some (AwaitFetch (cacheKey (url eager) (options eager)))) as Hf'
    by (vm_compute; reflexivity).
  split_and!; [exact Hreach|exact Hf|exact Hf'|..];
    apply (superseded_call_is_cancelled eager h 0%nat _ (Refetch 5) [FetchSettled 1 ok200]
             _ (FetchSettled 0 ok200) Hreach Hf eq_refl Hf' eq_refl).
Defined.

(** The request of the eager instance is answered with status 404. *)
Lemma non_success_status_is_reported_witness :
  let h := mount eager 0 in
  let h' := step eager h (FetchSettled 0 (Fulfilled {| status := 404 |})) in
  reachable eager h /\
  frames h !! 0%nat = Some (AwaitFetch (cacheKey (url eager) (options eager))) /\
  (0%nat ∉ aborted h) /\
  ok {| status := 404 |} = false /\
  returned h' = [(0%nat, Failure "HTTP error! status: 404")] /\
  error h' = Some "HTTP error! status: 404" /\
  loading h' = false /\
  data h' = JNull.
Proof.
  intros h h'.
  assert (frames h !! 0%nat = Some (AwaitFetch (cacheKey (url eager) (options eager)))) as Hf
    by (vm_compute; reflexivity).
  assert (reachable eager h) as Hreach by apply reachable_mount.
  assert (0%nat ∉ aborted h) as Hab by (vm_compute; intros Hin; discriminate Hin).
  destruct (non_success_status_is_reported eager h 0%nat _ {| status := 404 |}
              Hreach Hf Hab eq_refl) as (_ & Hret & Herr & Hload & Hdata & _).
  split_and!; [exact Hreach|exact Hf|exact Hab|reflexivity|exact Hret|exact Herr
              |exact Hload|exact Hdata].
Defined.

(** The eager instance is torn down while its request is in flight; the
    answer arrives afterwards, in full. *)
Lemma teardown_cancels_and_freezes_witness :
  let h := mount eager 0 in
  let evs := [FetchSettled 0 ok200; BodySettled 0 (Fulfilled post1) 9] in
  reachable eager h /\
  forallb is_settlement evs = true /\
  is_Some (frames h !! 0%nat) /\
  0%nat ∈ aborted (step eager h Cleanup) /\
  view (run eager (step eager h Cleanup) evs) = view h.
Proof.
  intros h evs.
  assert (reachable eager h) as Hreach by apply reachable_mount.
  assert (is_Some (frames h !! 0%nat)) as Hwait by (vm_compute; eexists; reflexivity).
  destruct (teardown_cancels_and_freezes eager h evs Hreach eq_refl) as (Hall & Hv & _).
  split_and!; [exact Hreach|reflexivity|exact Hwait|exact (Hall _ Hwait)|exact Hv].
Defined.

(** * Further properties of the executor *)

Section Executor.

Variable cfg : config.

Implicit Types (h : hook) (c : nat) (key : string) (ev : event).

(** X1: in every state an instance reaches, at most one waiting invocation
    has a controller that was not aborted, and it is the one whose
    controller the ref holds. *)
Theorem one_live_request h c1 c2 f1 f2 :
  reachable cfg h ->
  frames h !! c1 = Some f1 ->
  frames h !! c2 = Some f2 ->
  c1 ∉ aborted h ->
  c2 ∉ aborted h ->
  c1 = c2 /\ abortControllerRef h = Some c1.
Proof.
  intros Hreach Hf1 Hf2 Hn1 Hn2.
  pose proof (reachable_invariant cfg h Hreach) as Hinv.
  assert (forall c f, frames h !! c = Some f -> c ∉ aborted h -> abortControllerRef h = Some c)
    as Hlive.
  { intros c f Hf Hn. destruct (decide (abortControllerRef h = Some c)) as [|Hne]; [done|].
    destruct Hn. by eapply (inv_superseded h Hinv). }
  pose proof (Hlive _ _ Hf1 Hn1) as H1. pose proof (Hlive _ _ Hf2 Hn2) as H2.
  split; [congruence|done].
Qed.

Lemma exclusive_step h ev :
  (loading h = true -> error h = None) ->
  loading (step cfg h ev) = true -> error (step cfg h ev) = None.
Proof.
  intros Hex.
  assert (forall h0, (loading h0 = true -> error h0 = None) ->
                     loading (step cfg h0 Cleanup) = true -> error (step cfg h0 Cleanup) = None)
    as Hcl.
  { intros h0 H0. destruct (step_Cleanup_fields cfg h0) as (Hv & _).
    unfold view in Hv. injection Hv as _ Hl He. unfold step. by rewrite Hl, He. }
  assert (forall h0 ev0, is_call ev0 = true -> error (step cfg h0 ev0) = None) as Hcall.
  { intros h0 ev0 Hev0.
    destruct (step_call cfg h0 ev0 Hev0) as (u & o & now & h1 & -> & _).
    by destruct (invoke_execute_cases cfg u o now h1) as [(cached & _ & _ & ->)| ->]. }
  destruct ev as [u o now|now|c p|c p now| |now].
  - intros _. by apply Hcall.
  - intros _. by apply Hcall.
  - unfold step. destruct (frames h !! c) as [[key|key]|]; [|done..].
    unfold invoke. rewrite execute_fetched_run.
    destruct (observed h c p) as [response|e]; [destruct (ok response)|];
      rewrite ?execute_catch_run; repeat case_decide; simpl; done.
  - unfold step. destruct (frames h !! c) as [[key|key]|]; [done| |done].
    unfold invoke. rewrite execute_parsed_run.
    destruct (observed h c p) as [result|e];
      rewrite ?execute_catch_run; repeat case_decide; simpl; done.
  - by apply Hcl.
  - rewrite step_Rerun. destruct (immediate cfg); [|by apply Hcl].
    intros _. by apply Hcall.
Qed.

(** X2: [loading] and [error] are never set together: in every state an
    instance reaches, while [loading] is true [error] is [null]. *)
Theorem loading_excludes_error h :
  reachable cfg h -> loading h = true -> error h = None.
Proof.
  induction 1 as [now|h ev _ IH].
  - rewrite mount_unfold. destruct (immediate cfg); [|done].
    by apply exclusive_step.
  - by apply exclusive_step.
Qed.

(** X3: when the promise on which a waiting, not cancelled invocation
    waits rejects with anything but an [AbortError] (the network is down,
    the body is not JSON), the invocation returns a failure with the
    message of the rejection, [error] is that message, [loading] is false,
    and [data], the cache and the requests sent are untouched. *)
Theorem transport_failure_is_reported h c f e now :
  frames h !! c = Some f ->
  c ∉ aborted h ->
  err_name e ≠ "AbortError" ->
  let h' := step cfg h (rejection c f e now) in
  returned h' = returned h ++ [(c, Failure (err_message e))] /\
  error h' = Some (err_message e) /\
  loading h' = false /\
  data h' = data h /\
  cacheRef h' = cacheRef h /\
  network h' = network h /\
  frames h' !! c = None.
Proof.
  intros Hf Hab Hname h'.
  assert (h' = finished c (Failure (err_message e))
                 (with_loading false (with_error (Some (err_message e)) h))) as ->.
  { unfold h'. destruct f as [key|key]; unfold rejection, step; rewrite Hf;
      unfold invoke, observed; rewrite decide_False by done;
      rewrite ?execute_fetched_run, ?execute_parsed_run, execute_catch_run;
      unfold failure_message; by rewrite !decide_False by done. }
  simpl. split_and!; try done. apply lookup_delete_eq.
Qed.

(** What each event does to the cache. *)
Lemma cache_step h ev :
  cacheRef (step cfg h ev) =
    match ev with
    | Refetch _ => delete (cacheKey (url cfg) (options cfg)) (cacheRef h)
    | BodySettled c p now =>
        match frames h !! c, observed h c p with
        | Some (AwaitJson key), Fulfilled payload =>
            <[key := {| entry_data := payload; timestamp := now |}]> (cacheRef h)
        | _, _ => cacheRef h
        end
    | _ => cacheRef h
    end.
Proof.
  assert (forall h0 u o now,
             cacheRef (invoke (controllers h0) (execute cfg u o now) h0) = cacheRef h0) as Hexec.
  { intros h0 u o now.
    pose proof (entered_fields h0) as (_ & _ & _ & Hca & _).
    by destruct (invoke_execute_cases cfg u o now h0) as [(cached & _ & _ & ->)| ->]. }
  assert (cacheRef (step cfg h Cleanup) = cacheRef h) as Hcl
    by apply (step_Cleanup_fields cfg h).
  destruct ev as [u o now|now|c p|c p now| |now].
  - apply Hexec.
  - unfold step. rewrite invoke_refetch. by rewrite Hexec.
  - unfold step. destruct (frames h !! c) as [[key|key]|]; [|done..].
    unfold invoke. rewrite execute_fetched_run.
    destruct (observed h c p) as [response|e]; [destruct (ok response)|];
      rewrite ?execute_catch_run; repeat case_decide; simpl; done.
  - unfold step. destruct (frames h !! c) as [[key|key]|]; [done| |done].
    unfold invoke. rewrite execute_parsed_run.
    destruct (observed h c p) as [result|e];
      rewrite ?execute_catch_run; repeat case_decide; simpl; done.
  - done.
  - rewrite step_Rerun. destruct (immediate cfg); [|done].
    unfold step at 1. by rewrite Hexec.
Qed.

(** X4: the cache changes in two ways only.  [refetch] removes the entry
    of the default request;  the parsed body of a request that was not
    cancelled writes the entry of that request, stamped with the time of
    its arrival.  Errors and cancellations are never cached. *)
Theorem cache_changes_by_success_or_refetch h ev k :
  cacheRef (step cfg h ev) !! k ≠ cacheRef h !! k ->
  (exists now,
      ev = Refetch now /\ k = cacheKey (url cfg) (options cfg) /\
      cacheRef (step cfg h ev) !! k = None) \/
  (exists c payload now,
      ev = BodySettled c (Fulfilled payload) now /\
      frames h !! c = Some (AwaitJson k) /\
      (c ∉ aborted h) /\
      cacheRef (step cfg h ev) !! k = Some {| entry_data := payload; timestamp := now |}).
Proof.
  rewrite cache_step. destruct ev as [u o now|now|c p|c p now| |now]; try done.
  - intros Hne. left. exists now.
    destruct (decide (cacheKey (url cfg) (options cfg) = k)) as [<-|Hk].
    + split_and!; [done..|]. apply lookup_delete_eq.
    + by rewrite lookup_delete_ne in Hne.
  - destruct (frames h !! c) as [[key|key]|] eqn:Hf; try done.
    unfold observed. case_decide as Hab; [done|].
    destruct p as [payload|e]; [|done].
    intros Hne. right. exists c, payload, now.
    destruct (decide (key = k)) as [<-|Hk].
    + split_and!; [done..|]. apply lookup_insert_eq.
    + by rewrite lookup_insert_ne in Hne.
Qed.

(** X5: an entry is never removed for its age: whatever happens short of
    a [refetch], a key that is in the cache stays in the cache. *)
Theorem entries_are_never_purged evs h k :
  forallb (fun ev => negb (is_refetch ev)) evs = true ->
  is_Some (cacheRef h !! k) ->
  is_Some (cacheRef (run cfg h evs) !! k).
Proof.
  revert h. induction evs as [|ev evs IH]; intros h Hevs Hk; [done|].
  simpl in Hevs. apply andb_true_iff in Hevs as [Hev Hevs].
  simpl. apply IH; [done|]. rewrite cache_step.
  destruct ev as [u o now|now|c p|c p now| |now]; try done.
  destruct (frames h !! c) as [[key|key]|]; try done.
  destruct (observed h c p) as [payload|e]; [|done].
  destruct (decide (key = k)) as [->|Hne].
  - rewrite lookup_insert_eq. by eexists.
  - by rewrite lookup_insert_ne.
Qed.

(** X6: every call that finds a fresh entry sends no request, returns the
    cached payload as a success and leaves the cache as it is;  and since
    it leaves nothing in flight, whatever answers arrive afterwards the
    state stays: the cached payload, no error, and [loading] as it was
    when the call was made. *)
Theorem cache_hit_serves_and_freezes h u o now cached evs :
  reachable cfg h ->
  cacheRef h !! cacheKey (default (url cfg) u) (default (options cfg) o) = Some cached ->
  now - timestamp cached < cacheTime cfg ->
  forallb is_settlement evs = true ->
  let h1 := step cfg h (Execute u o now) in
  network h1 = network h /\
  returned h1 = returned h ++ [(controllers h, Success (entry_data cached))] /\
  cacheRef h1 = cacheRef h /\
  frames h1 !! controllers h = None /\
  view (run cfg h1 evs) = (entry_data cached, loading h, None).
Proof.
  intros Hreach Hk Hfresh Hevs h1.
  destruct (step_cache_hit cfg h u o now cached Hk Hfresh) as (Hnet & Hret & _ & _ & _ & Hca & Hf).
  split_and!; try done. by apply cache_hit_freezes.
Qed.

(** X7: with a time-to-live of zero or less nothing is ever served from
    the cache, as long as no entry is stamped later than the clock reads:
    every call sends its request. *)
Theorem no_time_to_live_no_cache h u o now :
  cacheTime cfg <= 0 ->
  (forall k cached, cacheRef h !! k = Some cached -> timestamp cached <= now) ->
  let customUrl := default (url cfg) u in
  let customOptions := default (options cfg) o in
  let h' := step cfg h (Execute u o now) in
  network h' = network h ++ [(customUrl, fetch_init customOptions (controllers h))] /\
  frames h' !! controllers h = Some (AwaitFetch (cacheKey customUrl customOptions)) /\
  loading h' = true.
Proof.
  intros Httl Hclock customUrl customOptions h'.
  unfold h', step. fold customUrl customOptions.
  rewrite invoke_execute_miss.
  - unfold suspended, entered, abort_current.
    destruct (abortControllerRef h); simpl; split_and!; try done; apply lookup_insert_eq.
  - destruct (cacheRef h !! cacheKey customUrl customOptions) as [cached|] eqn:Hk; [|done].
    specialize (Hclock _ _ Hk). lia.
Qed.


End Executor.

(** * Further properties of the request and of the cache key *)

Section Requests.

Implicit Types (k : string) (v : jsval) (o : obj).

Lemma obj_get_absent k o : k ∉ o.*1 -> obj_get k o = JUndefined.
Proof.
  induction o as [|[k' v'] o IH]; [done|].
  csimpl. intros [Hne Hnin]%not_elem_of_cons.
  destruct (decide (k' = k)); [congruence|by apply IH].
Qed.

(** Copying a well-formed object over another: its properties win. *)
Lemma obj_get_spread k o acc :
  NoDup o.*1 ->
  obj_get k (spread (JObj o) acc) =
    if decide (k ∈ o.*1) then obj_get k o else obj_get k acc.
Proof.
  unfold spread. simpl own_props. revert acc.
  induction o as [|[k' v'] o IH]; intros acc Hnd; csimpl.
  - done.
  - apply NoDup_cons in Hnd as [Hnin Hnd]. rewrite IH by done.
    destruct (decide (k' = k)) as [->|Hne].
    + rewrite decide_False by done. rewrite obj_get_set_eq.
      rewrite decide_True; [done|]. apply elem_of_cons. by left.
    + destruct (decide (k ∈ o.*1)) as [Hin|Hout].
      * rewrite decide_True; [done|]. apply elem_of_cons. by right.
      * rewrite obj_get_set_ne by done. rewrite decide_False; [done|].
        intros [?|?]%elem_of_cons; [congruence|done].
Qed.

(** X9: in the options that [execute] hands to [fetch], the signal is
    always the hook's own, whatever signal the caller passed;  every other
    option but the headers is the caller's;  and the headers are the
    caller's with [Content-Type: application/json] added unless the caller
    gave a [Content-Type]. *)
Theorem request_options o c :
  NoDup o.*1 ->
  obj_get "signal" (fetch_init o c) = JSignal c /\
  (forall k, k ≠ "signal" -> k ≠ "headers" -> obj_get k (fetch_init o c) = obj_get k o) /\
  (obj_get "headers" o = JUndefined ->
   obj_get "headers" (fetch_init o c) = JObj [("Content-Type", JStr "application/json")]) /\
  (forall callers,
      obj_get "headers" o = JObj callers -> NoDup callers.*1 ->
      exists sent,
        obj_get "headers" (fetch_init o c) = JObj sent /\
        (forall k, k ≠ "Content-Type" -> obj_get k sent = obj_get k callers) /\
        obj_get "Content-Type" sent =
          if decide ("Content-Type" ∈ callers.*1) then obj_get "Content-Type" callers
          else JStr "application/json").
Proof.
  intros Hnd. unfold fetch_init. split_and!.
  - rewrite obj_get_set_ne by done. apply obj_get_set_eq.
  - intros k Hs Hh. rewrite !obj_get_set_ne by done. by rewrite spread_id.
  - intros ->. by rewrite obj_get_set_eq.
  - intros callers -> Hcallers. eexists. split; [apply obj_get_set_eq|].
    split.
    + intros k Hk. rewrite obj_get_spread by done. case_decide as Hin; [done|].
      rewrite (obj_get_absent k callers) by done. simpl.
      destruct (decide ("Content-Type" = k)); [congruence|done].
    + rewrite obj_get_spread by done. by case_decide.
Qed.

(** X10: the options passed to [execute] replace the executor's defaults,
    they are not merged with them.  So a call of the [execute] of [usePost]
    with options of its own that name no method sends a request without a
    method: the forced [POST] is only in the defaults. *)
Theorem custom_options_drop_the_forced_method url0 defaults h u o now :
  NoDup o.*1 ->
  "method" ∉ o.*1 ->
  let cfg := usePost url0 defaults in
  let customUrl := default (url cfg) u in
  cacheRef h !! cacheKey customUrl o = None ->
  let h' := step cfg h (Execute u (Some o) now) in
  network h' = network h ++ [(customUrl, fetch_init o (controllers h))] /\
  obj_get "method" (fetch_init o (controllers h)) = JUndefined /\
  obj_get "method" (options cfg) = JStr "POST".
Proof.
  intros Hnd Hnin cfg customUrl Hk h'.
  split_and!.
  - unfold h', step.
    change (default (options cfg) (Some o)) with o.
    change (default (url cfg) u) with customUrl.
    rewrite invoke_execute_miss by (by rewrite Hk).
    reflexivity.
  - unfold fetch_init. rewrite !obj_get_set_ne by done. rewrite spread_id by done.
    by apply obj_get_absent.
  - apply obj_get_set_eq.
Qed.

Lemma string_length_app (s t : string) :
  String.length (s +:+ t) = (String.length s + String.length t)%nat.
Proof. induction s as [|a s IH]; simpl; [done|]. by rewrite IH. Qed.

Lemma string_app_inj_r (s1 s2 t : string) : s1 +:+ t = s2 +:+ t -> s1 = s2.
Proof.
  revert s2. induction s1 as [|a s1 IH]; intros [|b s2] Heq.
  - done.
  - apply (f_equal String.length) in Heq. rewrite !string_length_app in Heq.
    simpl in Heq. lia.
  - apply (f_equal String.length) in Heq. rewrite !string_length_app in Heq.
    simpl in Heq. lia.
  - change (String a (s1 +:+ t) = String b (s2 +:+ t)) in Heq.
    injection Heq as -> Heq. f_equal. by apply IH.
Qed.

(** X11: with the same options, two endpoints have the same cache key only
    if they are the same endpoint: an entry is never served for another
    url with identical options. *)
Theorem cache_key_separates_endpoints (customUrl1 customUrl2 : string) o :
  cacheKey customUrl1 o = cacheKey customUrl2 o -> customUrl1 = customUrl2.
Proof.
  unfold cacheKey. intros Heq.
  by apply (string_app_inj_r _ _ ("-" +:+ template (stringify (JObj o)))).
Qed.

End Requests.

(** * Properties of the patterns *)

Section Patterns.

Import RegExp.

Lemma test_class p s : test (Class p) s = has p s.
Proof.
  unfold test. generalize true.
  induction s as [|c s IH]; intros start; [done|].
  simpl. by rewrite andb_true_r, IH.
Qed.

(** [p*] followed by [k]: [k] accepts here, or after one more character
    of the class. *)
Lemma iterate_class p k s start :
  iterate (matches (Class p)) k (String.length s) start s =
    k start s ||
    match s with
    | String c s' =>
        in_class p c && iterate (matches (Class p)) k (String.length s') false s'
    | EmptyString => false
    end.
Proof.
  destruct s as [|c s']; [done|].
  change (String.length (String c s')) with (S (String.length s')).
  change (iterate (matches (Class p)) k (S (String.length s')) start (String c s'))
    with (k start (String c s') ||
          in_class p c &&
            ((String.length s' <? S (String.length s'))%nat &&
             iterate (matches (Class p)) k (String.length s') false s')).
  by rewrite (proj2 (Nat.ltb_lt _ _) (Nat.lt_succ_diag_r _)).
Qed.

Lemma star_class p k s start :
  matches (Star (Class p)) start s k = true <->
  exists u v, s = u +:+ v /\ all_in p u = true /\
    k (start && bool_decide (u = "")) v = true.
Proof.
  change (matches (Star (Class p)) start s k)
    with (iterate (matches (Class p)) k (String.length s) start s).
  revert start. induction s as [|c s IH]; intros start.
  - rewrite iterate_class, orb_false_r. split.
    + intros Hk. exists "", "". by rewrite andb_true_r.
    + intros (u & v & Heq & _ & Hk). destruct u; [|done].
      destruct v; [|done]. by rewrite andb_true_r in Hk.
  - rewrite iterate_class, orb_true_iff, andb_true_iff, IH. split.
    + intros [Hk|[Hc (u & v & -> & Hu & Hk)]].
      * exists "", (String c s). by rewrite andb_true_r.
      * exists (String c u), v. simpl. rewrite Hc, Hu, andb_false_r. by destruct u.
    + intros (u & v & Heq & Hu & Hk). destruct u as [|c' u].
      * left. change ("" +:+ v) with v in Heq. subst v. by rewrite andb_true_r in Hk.
      * right. change (String c' u +:+ v) with (String c' (u +:+ v)) in Heq.
        injection Heq as <- ->. simpl in Hu. apply andb_true_iff in Hu as [Hc Hu].
        split; [done|]. exists u, v. rewrite andb_false_r in Hk. by destruct u.
Qed.

(** [p+] followed by [k]: a first character of the class, more of them,
    and [k] accepts what is left. *)
Lemma plus_class p k s start :
  matches (Plus (Class p)) start s k = true <->
  exists u v, s = u +:+ v /\ u <> "" /\ all_in p u = true /\ k false v = true.
Proof.
  unfold Plus.
  change (matches (Seq (Class p) (Star (Class p))) start s k)
    with (match s with
          | String c s' => in_class p c && matches (Star (Class p)) false s' k
          | EmptyString => false
          end).
  destruct s as [|c s].
  - split; [done|]. intros (u & v & Heq & Hne & _). by destruct u.
  - rewrite andb_true_iff, star_class. split.
    + intros [Hc (u & v & -> & Hu & Hk)]. exists (String c u), v.
      simpl. by rewrite Hc, Hu.
    + intros (u & v & Heq & Hne & Hu & Hk). destruct u as [|c' u]; [done|].
      change (String c' u +:+ v) with (String c' (u +:+ v)) in Heq.
      injection Heq as <- ->. simpl in Hu. apply andb_true_iff in Hu as [Hc Hu].
      split; [done|]. by exists u, v.
Qed.

(** A pattern that begins with [^] matches at the start or not at all. *)
Lemma search_anchored r s : search (Seq Bol r) false s = false.
Proof. induction s as [|c s IH]; [done|]. simpl. by rewrite IH. Qed.

Lemma test_anchored r s :
  test (Seq Bol r) s = matches r true s (fun _ _ => true).
Proof.
  unfold test. destruct s as [|c s]; simpl; [by rewrite orb_false_r|].
  by rewrite search_anchored, orb_false_r.
Qed.

Lemma eol_accepts start v :
  matches Eol start v (fun _ _ => true) = true <-> v = "".
Proof. by destruct v. Qed.

Lemma string_app_empty_r (u : string) : u +:+ "" = u.
Proof.
  induction u as [|c u IH]; [done|].
  change (String c u +:+ "") with (String c (u +:+ "")). by rewrite IH.
Qed.

Lemma all_in_has_not p s : all_in p s = negb (has (Not p) s).
Proof.
  induction s as [|c s IH]; [done|]. simpl. rewrite IH.
  by destruct (in_class p c), (has (Not p) s).
Qed.

(** X12: the pattern of a user name accepts the texts that have a
    character and only letters of the English alphabet, digits and
    underscores. *)
Theorem username_pattern_accepts_words s :
  test username_re s = negb (bool_decide (s = "")) && all_in word s.
Proof.
  unfold username_re. rewrite test_anchored.
  apply eq_true_iff_eq.
  change (matches (Seq (Plus (Class word)) Eol) true s (fun _ _ => true))
    with (matches (Plus (Class word)) true s
            (fun start' s' => matches Eol start' s' (fun _ _ => true))).
  rewrite plus_class, andb_true_iff, negb_true_iff, bool_decide_eq_false. split.
  - intros (u & v & -> & Hne & Hu & ->%eol_accepts).
    by rewrite string_app_empty_r.
  - intros [Hne Hall]. exists s, "". by rewrite string_app_empty_r.
Qed.

(** [.*] followed by a character of the class: such a character after
    characters that are no line terminators. *)
Lemma lead_class p s start k :
  matches (Seq (Star (Class Dot)) (Class p)) start s k = true <->
  exists u c v, s = u +:+ String c v /\ all_in Dot u = true /\
    in_class p c = true /\ k false v = true.
Proof.
  change (matches (Seq (Star (Class Dot)) (Class p)) start s k)
    with (matches (Star (Class Dot)) start s
            (fun start' s' => matches (Class p) start' s' k)).
  rewrite star_class. split.
  - intros (u & v & -> & Hu & Hk). destruct v as [|c v]; [done|].
    simpl in Hk. apply andb_true_iff in Hk as [Hc Hk]. by exists u, c, v.
  - intros (u & c & v & -> & Hu & Hc & Hk). exists u, (String c v).
    simpl. by rewrite Hc, Hk.
Qed.

Lemma has_app p u v : has p (u +:+ v) = has p u || has p v.
Proof.
  induction u as [|c u IH]; [done|].
  change (String c u +:+ v) with (String c (u +:+ v)). simpl.
  by rewrite IH, orb_assoc.
Qed.

Lemma has_split p s :
  has p s = true -> exists u c v, s = u +:+ String c v /\ in_class p c = true.
Proof.
  induction s as [|c s IH]; [done|]. simpl. intros [Hc|Hs]%orb_true_iff.
  - by exists "", c, s.
  - destruct (IH Hs) as (u & c' & v & -> & Hc'). by exists (String c u), c', v.
Qed.

Lemma all_in_app p u v : all_in p (u +:+ v) = all_in p u && all_in p v.
Proof.
  induction u as [|c u IH]; [done|].
  change (String c u +:+ v) with (String c (u +:+ v)). simpl.
  by rewrite IH, andb_assoc.
Qed.

Lemma has_suffix p s t : has p t = true -> has p (s +:+ t) = true.
Proof. intros Ht. by rewrite has_app, Ht, orb_true_r. Qed.

Lemma search_suffix r start s :
  search r start s = true ->
  exists u v start', s = u +:+ v /\ matches r start' v (fun _ _ => true) = true.
Proof.
  revert start. induction s as [|c s IH]; intros start; simpl.
  - rewrite orb_false_r. intros Hm. by exists "", "", start.
  - intros [Hm|Hs]%orb_true_iff.
    + by exists "", (String c s), start.
    + destruct (IH _ Hs) as (u & v & start' & -> & Hm).
      by exists (String c u), v, start'.
Qed.

Lemma strong_here start v :
  matches strong_re start v (fun _ _ => true) =
    matches (Seq (Star (Class Dot)) (Class Lower)) start v (fun _ _ => true)
    && (matches (Seq (Star (Class Dot)) (Class Upper)) start v (fun _ _ => true)
        && (matches (Seq (Star (Class Dot)) (Class Digit)) start v (fun _ _ => true)
            && true)).
Proof. done. Qed.

Lemma strong_needs s :
  test strong_re s = true ->
  has Lower s = true /\ has Upper s = true /\ has Digit s = true.
Proof.
  unfold test. intros (u & v & start' & -> & Hm)%search_suffix.
  rewrite strong_here in Hm.
  apply andb_true_iff in Hm as [Hl Hm]. apply andb_true_iff in Hm as [Hu Hm].
  apply andb_true_iff in Hm as [Hd _].
  apply lead_class in Hl as (? & ? & ? & -> & _ & Hl & _).
  apply lead_class in Hu as (? & ? & ? & Hu' & _ & Hu & _).
  apply lead_class in Hd as (? & ? & ? & Hd' & _ & Hd & _).
  split_and!; apply has_suffix.
  - apply has_suffix. cbn [has]. by rewrite Hl.
  - rewrite Hu'. apply has_suffix. cbn [has]. by rewrite Hu.
  - rewrite Hd'. apply has_suffix. cbn [has]. by rewrite Hd.
Qed.

Lemma strong_on_one_line s :
  all_in Dot s = true ->
  has Lower s = true -> has Upper s = true -> has Digit s = true ->
  test strong_re s = true.
Proof.
  intros Hdot Hl Hu Hd. unfold test.
  assert (matches strong_re true s (fun _ _ => true) = true) as Hm.
  { rewrite strong_here, andb_true_r.
    assert (forall p, has p s = true ->
      matches (Seq (Star (Class Dot)) (Class p)) true s (fun _ _ => true) = true) as Hlead.
    { intros p (u & c & v & -> & Hc)%has_split. apply lead_class.
      exists u, c, v. rewrite all_in_app in Hdot.
      apply andb_true_iff in Hdot as [Hdot _]. done. }
    by rewrite !Hlead. }
  destruct s; simpl in *; by rewrite Hm.
Qed.

(** X13: the pattern of a strong password asks for a small letter, a
    capital letter and a digit, and, as [.] stops at the end of a line, it
    accepts a text of several lines only with the three on one line;  on a
    text of one line it asks for no more. *)
Theorem strong_pattern_asks_for_three_kinds s :
  (test strong_re s = true ->
   has Lower s = true /\ has Upper s = true /\ has Digit s = true) /\
  (all_in Dot s = true ->
   has Lower s = true -> has Upper s = true -> has Digit s = true ->
   test strong_re s = true).
Proof. split; [apply strong_needs|apply strong_on_one_line]. Qed.

Lemma seq_plus_class p r s start :
  matches (Seq (Plus (Class p)) r) start s (fun _ _ => true) = true <->
  exists u v, s = u +:+ v /\ u <> "" /\ all_in p u = true /\
    matches r false v (fun _ _ => true) = true.
Proof.
  change (matches (Seq (Plus (Class p)) r) start s (fun _ _ => true))
    with (matches (Plus (Class p)) start s
            (fun start' s' => matches r start' s' (fun _ _ => true))).
  apply plus_class.
Qed.

Lemma seq_lit x r s start :
  matches (Seq (Class (Lit x)) r) start s (fun _ _ => true) = true <->
  exists v, s = String x v /\ matches r false v (fun _ _ => true) = true.
Proof.
  destruct s as [|c s].
  - split; [done|]. by intros (v & ? & _).
  - change (matches (Seq (Class (Lit x)) r) start (String c s) (fun _ _ => true))
      with (bool_decide (c = x) && matches r false s (fun _ _ => true)).
    rewrite andb_true_iff, bool_decide_eq_true. split.
    + intros [-> Hm]. by exists s.
    + intros (v & Heq & Hm). by injection Heq as -> ->.
Qed.

(** X14: the pattern of an e-mail address accepts the texts of the form
    [a@b.c] where [a], [b] and [c] have a character each and no white space
    and no [@] (dots are allowed in them). *)
Theorem email_pattern_accepts_addresses s :
  test email_re s = true <->
  exists a b c,
    s = a +:+ String "@" (b +:+ String "." c) /\
    a <> "" /\ b <> "" /\ c <> "" /\
    all_in part a = true /\ all_in part b = true /\ all_in part c = true.
Proof.
  unfold email_re. rewrite test_anchored, seq_plus_class. split.
  - intros (a & v & -> & Ha & Hpa & Hm).
    apply seq_lit in Hm as (v1 & -> & Hm).
    apply seq_plus_class in Hm as (b & v2 & -> & Hb & Hpb & Hm).
    apply seq_lit in Hm as (v3 & -> & Hm).
    apply seq_plus_class in Hm as (c & v4 & -> & Hc & Hpc & ->%eol_accepts).
    exists a, b, c. by rewrite string_app_empty_r.
  - intros (a & b & c & -> & Ha & Hb & Hc & Hpa & Hpb & Hpc).
    exists a, (String "@" (b +:+ String "." c)). split_and!; [done..|].
    apply seq_lit. eexists. split; [done|].
    apply seq_plus_class. exists b, (String "." c). split_and!; [done..|].
    apply seq_lit. eexists. split; [done|].
    apply seq_plus_class. exists c, "". rewrite string_app_empty_r. done.
Qed.

Lemma email_is_not_blank s : test email_re s = true -> Form.all_space s = false.
Proof.
  unfold email_re. rewrite test_anchored, seq_plus_class.
  intros (a & v & -> & Ha & Hpa & _). destruct a as [|c a]; [done|].
  change (String c a +:+ v) with (String c (a +:+ v)).
  cbn [Form.all_space all_in] in *. apply andb_true_iff in Hpa as [Hc _].
  unfold part in Hc. cbn [in_class] in Hc.
  apply negb_true_iff, orb_false_iff in Hc as [Hc _].
  cbn [in_class]. by rewrite Hc.
Qed.

End Patterns.

(** * Properties of the form hook *)

Section FormFacts.

Import RegExp Form Pages.

Variable validationSchema : list (string * rules).

Implicit Types (name : string) (value : field) (values : fields) (r : rules)
  (st : form).

Lemma string_app_nonempty (s t : string) : t ≠ "" -> s +:+ t ≠ "".
Proof.
  intros Ht Heq. apply (f_equal String.length) in Heq.
  rewrite string_length_app in Heq. destruct t; [done|]. simpl in Heq. lia.
Qed.

Lemma blank_required_value values name r value :
  prop_get name validationSchema = Some r ->
  required_set r = true ->
  (value = FUndefined \/ value = FBool false \/
   exists s, value = FStr s /\ all_space s = true) ->
  validateField validationSchema values name value = Normal (required_error name r) /\
  shown (required_error name r) = true.
Proof.
  intros Hget Hreq Hblank. split.
  - unfold validateField. rewrite Hget, Hreq.
    destruct Hblank as [->| [->|(s & -> & Hs)]]; [done..|].
    simpl. rewrite Hs. by destruct (bool_decide (s = "")).
  - unfold required_error. unfold required_set in Hreq.
    destruct (required r) as [[|m]|]; simpl in *; [|done..].
    apply negb_true_iff, bool_decide_eq_false_2. by apply string_app_nonempty.
Qed.

(** X15: a required field that is missing, [false], empty or made of white
    space only gets the message of the rule (or "<name> is required" when
    the rule is [true]), whatever the other rules of the field say. *)
Theorem blank_required_field_is_rejected values name r value :
  prop_get name validationSchema = Some r ->
  required_set r = true ->
  (value = FUndefined \/ value = FBool false \/
   exists s, value = FStr s /\ all_space s = true) ->
  validateField validationSchema values name value = Normal (required_error name r) /\
  shown (required_error name r) = true.
Proof. apply blank_required_value. Qed.

Lemma prop_get_elem {A} name (o : list (string * A)) x :
  prop_get name o = Some x -> name ∈ o.*1.
Proof.
  induction o as [|[k v] o IH]; [done|]. csimpl.
  destruct (decide (k = name)) as [->|]; intros H.
  - apply elem_of_cons. by left.
  - apply elem_of_cons. right. by apply IH.
Qed.

Lemma collect_errors_throws values names acc name e :
  name ∈ names ->
  validateField validationSchema values name (value_of name values) = Throw e ->
  exists e', collect_errors validationSchema values names acc = Throw e'.
Proof.
  revert acc. induction names as [|n names IH]; intros acc Hin Hthrow.
  - by apply elem_of_nil in Hin.
  - simpl. destruct (decide (n = name)) as [->|Hne].
    + rewrite Hthrow. by eexists.
    + destruct (validateField _ values n _) as [error|e0]; [|by eexists].
      apply IH; [|done]. apply elem_of_cons in Hin as [?|?]; [congruence|done].
Qed.

(** X16: on a required field a ticked checkbox makes [validateField]
    throw: [true] has no [trim].  The blur handler lets the exception out,
    and [handleSubmit] rejects before it looks at [onSubmit]: while the box
    is ticked the form cannot be submitted. *)
Theorem ticked_required_checkbox_throws onSubmit st name r :
  prop_get name validationSchema = Some r ->
  required_set r = true ->
  value_of name (values st) = FBool true ->
  let e := TypeError "value.trim is not a function" in
  validateField validationSchema (values st) name (FBool true) = Throw e /\
  uncaught (handleBlur validationSchema name st) = uncaught st ++ [e] /\
  errors (handleBlur validationSchema name st) = errors st /\
  submitted (handleSubmit validationSchema onSubmit st) = submitted st /\
  resolved (handleSubmit validationSchema onSubmit st) = resolved st /\
  exists e', uncaught (handleSubmit validationSchema onSubmit st) = uncaught st ++ [e'].
Proof.
  intros Hget Hreq Hval e.
  assert (validateField validationSchema (values st) name (FBool true) = Throw e) as Hthrow.
  { unfold validateField. by rewrite Hget, Hreq. }
  split; [done|]. unfold handleBlur. rewrite Hval, Hthrow. split_and!; [done..| | |].
  all: unfold handleSubmit, validateForm;
    destruct (collect_errors_throws (values st) (schema_keys validationSchema) [] name e)
      as [e' ->]; [by eapply prop_get_elem|by rewrite Hval| ]; try done.
  by exists e'.
Qed.

(** X17: the length and pattern rules are not applied to an empty value:
    a field that is not required and is missing, [false] or empty gets what
    its custom validator says, and no error without one. *)
Theorem empty_optional_field_skips_rules values name r value :
  prop_get name validationSchema = Some r ->
  required_set r = false ->
  truthy value = false ->
  validateField validationSchema values name value =
    Normal (ErrStr match validate r with
                   | Some check => check value values
                   | None => ""
                   end).
Proof.
  intros Hget Hreq Hfalsy. unfold validateField. rewrite Hget, Hreq, Hfalsy.
  rewrite !andb_false_r. simpl.
  destruct (pattern r), (validate r) as [check|]; try done;
    by destruct (bool_decide (check value values = "")) eqn:Hc;
      [apply bool_decide_eq_true_1 in Hc as ->|].
Qed.

(** X18: what a text that is too short or too long gets is not a message
    but the bound itself, a number. *)
Theorem length_failure_returns_the_number values name r s n :
  prop_get name validationSchema = Some r ->
  all_space s = false ->
  n ≠ 0 ->
  (minLength r = Some (BoundNum n) /\ Z.of_nat (String.length s) < n \/
   minLength r = None /\ maxLength r = Some (BoundNum n) /\ Z.of_nat (String.length s) > n) ->
  validateField validationSchema values name (FStr s) = Normal (ErrNum n).
Proof.
  intros Hget Hs Hn Hlen. unfold validateField. rewrite Hget.
  assert (truthy (FStr s) = true) as Htruthy.
  { simpl. destruct s; [done|]. done. }
  assert (match trim_is_empty (FStr s) with
          | Normal true => Normal (required_error name r)
          | Normal false => Normal (ErrNum n)
          | Throw e => Throw e
          end = Normal (ErrNum n)) as Htrim by (simpl; by rewrite Hs).
  rewrite Htruthy.
  destruct Hlen as [[Hmin Hlt]|(Hmin & Hmax & Hgt)].
  - rewrite Hmin. unfold bound_set, shorter. simpl length_of. simpl default.
    rewrite (bool_decide_eq_false_2 (n = 0)) by done.
    rewrite (bool_decide_eq_true_2 (_ < _)) by done. simpl.
    destruct (required_set r); [by rewrite Hs|done].
  - rewrite Hmin, Hmax. unfold bound_set, longer. simpl length_of. simpl default.
    rewrite (bool_decide_eq_false_2 (n = 0)) by done.
    rewrite (bool_decide_eq_true_2 (_ > _)) by done. simpl.
    destruct (required_set r); [by rewrite Hs|done].
Qed.

(** What [validateField] does with a text that is not blank. *)
Lemma validateField_text values name r s :
  prop_get name validationSchema = Some r ->
  all_space s = false ->
  validateField validationSchema values name (FStr s) =
    if bound_set (minLength r) && shorter (FStr s) (default BoundTrue (minLength r)) then
      Normal match default BoundTrue (minLength r) with
             | BoundTrue => ErrStr (name +:+ " must be at least true characters")
             | BoundNum n => ErrNum n
             end
    else if bound_set (maxLength r) && longer (FStr s) (default BoundTrue (maxLength r)) then
      Normal match default BoundTrue (maxLength r) with
             | BoundTrue => ErrStr (name +:+ " must be no more than true characters")
             | BoundNum n => ErrNum n
             end
    else
      let custom :=
        Normal (ErrStr match validate r with
                       | Some check => check (FStr s) values
                       | None => ""
                       end) in
      match pattern r with
      | Some PatTrue => Throw (TypeError "rules.pattern.test is not a function")
      | Some (PatRegExp p) => if test p s then custom else Normal (ErrRegExp p)
      | None => custom
      end.
Proof.
  intros Hget Hs. unfold validateField. rewrite Hget.
  assert (truthy (FStr s) = true) as -> by by destruct s.
  cbn [trim_is_empty negb]. rewrite Hs, !andb_true_r.
  assert (forall custom : completion error_value,
    (if required_set r then custom else custom) = custom) as -> by by destruct (required_set r).
  assert (forall m : string,
    (if negb (bool_decide (m = "")) then Normal (ErrStr m) else Normal (ErrStr ""))
    = Normal (ErrStr m)) as Hcustom.
  { intros m. by destruct (decide (m = "")) as [->|]; [|rewrite bool_decide_eq_false_2]. }
  destruct (bound_set (minLength r) && shorter _ _); [done|].
  destruct (bound_set (maxLength r) && longer _ _); [done|].
  destruct (pattern r) as [[|p]|], (validate r) as [check|]; cbn [to_string];
    rewrite ?Hcustom; try done; by destruct (test p s).
Qed.

(** X19: a text that the pattern of its field does not match gets the
    pattern itself, a regular expression, and the custom validator of the
    field is not asked. *)
Theorem pattern_failure_returns_the_pattern values name r s p :
  prop_get name validationSchema = Some r ->
  all_space s = false ->
  bound_set (minLength r) && shorter (FStr s) (default BoundTrue (minLength r)) = false ->
  bound_set (maxLength r) && longer (FStr s) (default BoundTrue (maxLength r)) = false ->
  pattern r = Some (PatRegExp p) ->
  test p s = false ->
  validateField validationSchema values name (FStr s) = Normal (ErrRegExp p).
Proof.
  intros Hget Hs Hmin Hmax Hpat Htest.
  by rewrite (validateField_text _ _ r), Hmin, Hmax, Hpat, Htest.
Qed.

(** X20: the messages that the validators of [validationSchemas] give for
    a malformed e-mail address, a malformed user name and a short password
    are never what [validateField] returns: the pattern and the length
    rules, which come first, answer for these values with themselves. *)
Theorem friendly_messages_are_never_shown values name r message value :
  prop_get name validationSchema = Some r ->
  (r, message) ∈
    [(email_rules, "Please enter a valid email address");
     (username_rules, "Username can only contain letters, numbers, and underscores");
     (password_rules, "Password must be at least 8 characters long")] ->
  validateField validationSchema values name value <> Normal (ErrStr message).
Proof.
  intros Hget Hin.
  assert (required_set r = true) as Hreq.
  { set_unfold in Hin. by destruct Hin as [?|[?|[?|[]]]]; simplify_eq. }
  destruct value as [|[]|s].
  - rewrite (proj1 (blank_required_value values name r FUndefined Hget Hreq (or_introl eq_refl))).
    set_unfold in Hin. by destruct Hin as [?|[?|[?|[]]]]; simplify_eq.
  - unfold validateField. by rewrite Hget, Hreq.
  - rewrite (proj1 (blank_required_value values name r (FBool false) Hget Hreq
                      (or_intror (or_introl eq_refl)))).
    set_unfold in Hin. by destruct Hin as [?|[?|[?|[]]]]; simplify_eq.
  - destruct (all_space s) eqn:Hs.
    + rewrite (proj1 (blank_required_value values name r (FStr s) Hget Hreq
                        (or_intror (or_intror (ex_intro _ s (conj eq_refl Hs)))))).
      set_unfold in Hin. by destruct Hin as [?|[?|[?|[]]]]; simplify_eq.
    + rewrite (validateField_text _ _ r) by done.
      assert (truthy (FStr s) = true) as Htruthy by by destruct s.
      set_unfold in Hin. destruct Hin as [?|[?|[?|[]]]]; simplify_eq.
      * cbn -[test email_re truthy]. rewrite Htruthy.
        by destruct (test email_re s).
      * cbn -[test username_re shorter longer truthy]. rewrite Htruthy.
        destruct (shorter _ _); [done|]. destruct (longer _ _); [done|].
        by destruct (test username_re s).
      * cbn -[test strong_re shorter truthy]. rewrite Htruthy.
        destruct (shorter _ _); [done|]. cbn -[test strong_re].
        by destruct (test strong_re s).
Qed.

Lemma has_not_blank p s :
  (forall c, in_class p c = true -> in_class Space c = false) ->
  has p s = true -> all_space s = false.
Proof.
  intros Hp. induction s as [|c s IH]; [done|]. cbn [has all_space].
  intros [Hc|Hs]%orb_true_iff.
  - by rewrite (Hp c Hc).
  - by rewrite (IH Hs), andb_false_r.
Qed.

Lemma lower_is_no_space c : in_class Lower c = true -> in_class Space c = false.
Proof.
  cbn [in_class]. intros H%bool_decide_eq_true.
  rewrite !orb_false_iff, !bool_decide_eq_false. lia.
Qed.

(** X21: the rules of a password accept a text of one line exactly when
    it has eight characters or more, among them a small letter, a capital
    letter and a digit;  a text of several lines needs them as well. *)
Theorem password_rules_accept values name s :
  prop_get name validationSchema = Some password_rules ->
  (validateField validationSchema values name (FStr s) = Normal (ErrStr "") ->
   (8 <= String.length s)%nat /\
   has Lower s = true /\ has Upper s = true /\ has Digit s = true) /\
  (all_in Dot s = true -> (8 <= String.length s)%nat ->
   has Lower s = true -> has Upper s = true -> has Digit s = true ->
   validateField validationSchema values name (FStr s) = Normal (ErrStr "")).
Proof.
  intros Hget.
  assert (all_space s = false ->
    validateField validationSchema values name (FStr s) =
      if bool_decide (Z.of_nat (String.length s) < 8) then Normal (ErrNum 8)
      else if test strong_re s then Normal (ErrStr "")
      else Normal (ErrStr "Password must contain at least one uppercase letter, one lowercase letter, and one number"))
    as Htext.
  { intros Hs. rewrite (validateField_text _ _ password_rules) by done.
    assert (truthy (FStr s) = true) as Htruthy by by destruct s.
    cbn -[test strong_re truthy]. rewrite Htruthy.
    destruct (bool_decide (Z.of_nat (String.length s) < 8)); [done|].
    cbn -[test strong_re]. by destruct (test strong_re s). }
  split.
  - intros Hok. destruct (all_space s) eqn:Hs.
    { rewrite (proj1 (blank_required_value values name password_rules (FStr s) Hget eq_refl
                        (or_intror (or_intror (ex_intro _ s (conj eq_refl Hs)))))) in Hok.
      done. }
    rewrite Htext in Hok by done. case_bool_decide as Hlen; [done|].
    destruct (test strong_re s) eqn:Hstrong; [|done].
    split; [lia|]. by apply strong_needs.
  - intros Hdot Hlen Hl Hu Hd.
    rewrite Htext by (eapply has_not_blank; [apply lower_is_no_space|done]).
    rewrite bool_decide_eq_false_2 by lia.
    by rewrite strong_on_one_line.
Qed.

Lemma prop_set_nonempty {A} k (v : A) o : prop_set k v o <> [].
Proof. destruct o as [|[k' v'] o]; simpl; [done|]. by case_decide. Qed.

Lemma handleBlur_errors name st :
  (exists e, validateField validationSchema (values st) name (value_of name (values st))
             = Normal e) \/ errors st <> [] ->
  errors (handleBlur validationSchema name st) <> [].
Proof.
  unfold handleBlur. intros [[e ->]|Hne]; simpl.
  - apply prop_set_nonempty.
  - destruct (validateField _ _ _ _); simpl; [apply prop_set_nonempty|done].
Qed.

Lemma handleChange_errors name value st :
  errors st <> [] -> errors (handleChange name value st) <> [].
Proof.
  unfold handleChange. intros Hne.
  destruct (default false _); simpl; [apply prop_set_nonempty|done].
Qed.

(** X22: leaving a field puts its name into [errors], with the empty
    message when the field is valid, and [isValid] counts names: after a
    blur the form is not valid, and it stays so while fields are changed,
    left or set, until the form is submitted or reset. *)
Theorem blur_makes_the_form_invalid initialValues onSubmit name st e l :
  validateField validationSchema (values st) name (value_of name (values st)) = Normal e ->
  Forall (fun a => a <> Submit /\ a <> Reset) l ->
  isValid (acts initialValues validationSchema onSubmit
             (handleBlur validationSchema name st) l) = false.
Proof.
  intros Hv Hl. apply bool_decide_eq_false_2.
  assert (errors (handleBlur validationSchema name st) <> []) as Hne
    by (apply handleBlur_errors; eauto).
  revert Hne. generalize (handleBlur validationSchema name st).
  induction Hl as [|a l [Ha1 Ha2] Hl IH]; intros st' Hne; [done|].
  apply IH. destruct a; simpl; try done.
  - by apply handleChange_errors.
  - apply handleBlur_errors. by right.
  - unfold submit_settled. by destruct (awaiting st').
Qed.

Lemma collect_errors_empty values names acc :
  collect_errors validationSchema values names acc = Normal [] <->
  acc = [] /\ Forall (passes validationSchema values) names.
Proof.
  revert acc. induction names as [|n names IH]; intros acc.
  - simpl. split; [intros [= ->]; by split|by intros [-> _]].
  - cbn [collect_errors]. rewrite Forall_cons. unfold passes at 1.
    destruct (validateField _ values n _) as [error|e0].
    + rewrite IH. destruct (shown error) eqn:Hshown.
      * split; [intros [[]%prop_set_nonempty _]|].
        intros (_ & (e' & [= <-] & He') & _). congruence.
      * split; [intros [-> ?]; eauto|]. by intros (-> & _ & ?).
    + split; [done|]. by intros (_ & (e' & ? & _) & _).
Qed.

Lemma handleSubmit_valid st :
  Forall (passes validationSchema (values st)) (schema_keys validationSchema) ->
  handleSubmit validationSchema true st =
    {| values := values st; errors := [];
       touched := foldl (fun acc fieldName => prop_set fieldName true acc) []
                    (schema_keys validationSchema);
       isSubmitting := true; submitted := submitted st ++ [values st];
       awaiting := S (awaiting st); resolved := resolved st;
       uncaught := uncaught st |}.
Proof.
  intros Hall. unfold handleSubmit, validateForm.
  by rewrite (proj2 (collect_errors_empty (values st) _ []) (conj eq_refl Hall)).
Qed.

Lemma handleSubmit_invalid onSubmit st :
  ~ Forall (passes validationSchema (values st)) (schema_keys validationSchema) ->
  values (handleSubmit validationSchema onSubmit st) = values st /\
  submitted (handleSubmit validationSchema onSubmit st) = submitted st /\
  isSubmitting (handleSubmit validationSchema onSubmit st) = isSubmitting st /\
  awaiting (handleSubmit validationSchema onSubmit st) = awaiting st.
Proof.
  intros Hnot. unfold handleSubmit, validateForm.
  destruct (collect_errors _ _ _ _) as [newErrors|e] eqn:Hc; [|done].
  destruct (decide (newErrors = [])) as [->|Hne].
  - apply collect_errors_empty in Hc as [_ ?]. done.
  - by rewrite bool_decide_eq_false_2.
Qed.

(** X23: [handleSubmit] hands the values to [onSubmit] when every field
    of the schema passes, and only then: when a field fails, or its rule
    throws, nothing is submitted and [isSubmitting] is left alone. *)
Theorem submitted_when_every_field_passes st :
  let all_pass :=
    Forall (passes validationSchema (values st)) (schema_keys validationSchema) in
  (all_pass ->
   submitted (handleSubmit validationSchema true st) = submitted st ++ [values st] /\
   isSubmitting (handleSubmit validationSchema true st) = true /\
   errors (handleSubmit validationSchema true st) = []) /\
  (~ all_pass -> forall onSubmit,
   submitted (handleSubmit validationSchema onSubmit st) = submitted st /\
   isSubmitting (handleSubmit validationSchema onSubmit st) = isSubmitting st).
Proof.
  split.
  - intros Hall. by rewrite handleSubmit_valid.
  - intros Hnot onSubmit.
    by destruct (handleSubmit_invalid onSubmit st Hnot) as (_ & -> & -> & _).
Qed.

(** X24: [handleSubmit] does not look at [isSubmitting]: a valid form
    that is submitted [n] times in a row, before [onSubmit] answers, calls
    [onSubmit] [n] times with the same values. *)
Theorem repeated_submit_is_not_guarded initialValues st n :
  Forall (passes validationSchema (values st)) (schema_keys validationSchema) ->
  let st' := acts initialValues validationSchema true st (replicate n Submit) in
  submitted st' = submitted st ++ replicate n (values st) /\
  awaiting st' = (n + awaiting st)%nat.
Proof.
  intros Hall. revert st Hall. induction n as [|n IH]; intros st Hall; simpl.
  - by rewrite app_nil_r.
  - rewrite handleSubmit_valid by done.
    match goal with |- context [acts _ _ _ ?st1 _] => destruct (IH st1 Hall) as [-> ->] end.
    simpl. split; [by rewrite <- app_assoc|lia].
Qed.

Lemma prop_get_set {A} k k' (v : A) o :
  prop_get k (prop_set k' v o) = if decide (k' = k) then Some v else prop_get k o.
Proof.
  induction o as [|[k0 v0] o IH]; simpl.
  - done.
  - destruct (decide (k0 = k')) as [->|Hne]; simpl.
    + by destruct (decide (k' = k)).
    + rewrite IH. destruct (decide (k0 = k)) as [->|]; [|done].
      by rewrite decide_False.
Qed.

(** A required field that holds no text keeps the form from being
    submitted: its rule fails or throws. *)
Lemma non_text_does_not_pass values name r :
  prop_get name validationSchema = Some r ->
  required_set r = true ->
  is_text (value_of name values) = false ->
  ~ Forall (passes validationSchema values) (schema_keys validationSchema).
Proof.
  intros Hget Hreq Htext Hall.
  rewrite Forall_forall in Hall.
  destruct (Hall name) as (e & He & Hshown); [by eapply prop_get_elem|].
  destruct (value_of name values) as [|[]|s] eqn:Hv; [| | |done].
  - destruct (blank_required_value values name r FUndefined Hget Hreq) as [He' Hs'];
      [by left|]. congruence.
  - unfold validateField in He. by rewrite Hget, Hreq in He.
  - destruct (blank_required_value values name r (FBool false) Hget Hreq) as [He' Hs'];
      [by right; left|]. congruence.
Qed.

Lemma non_text_is_never_submitted initialValues onSubmit name r l :
  prop_get name validationSchema = Some r ->
  required_set r = true ->
  is_text (value_of name initialValues) = false ->
  Forall (fun a => sets_text name a = false) l ->
  forall st, submitted st = [] -> is_text (value_of name (values st)) = false ->
  submitted (acts initialValues validationSchema onSubmit st l) = [].
Proof.
  intros Hget Hreq Hinit Hl. induction Hl as [|a l Ha Hl IH]; intros st Hsub Htext; [done|].
  simpl. apply IH.
  - destruct a; simpl; try done.
    + unfold handleChange. by destruct (default false _).
    + unfold handleBlur. by destruct (validateField _ _ _ _).
    + by destruct (handleSubmit_invalid onSubmit st
        (non_text_does_not_pass _ _ _ Hget Hreq Htext)) as (_ & -> & _).
    + unfold submit_settled. by destruct (awaiting st).
  - destruct a; simpl; try done.
    + assert (values (handleChange name0 value st) = prop_set name0 value (values st)) as ->
        by (unfold handleChange; by destruct (default false _)).
      unfold value_of. rewrite prop_get_set. simpl in Ha.
      destruct (decide (name0 = name)) as [->|]; [|done].
      by rewrite bool_decide_eq_true_2 in Ha.
    + unfold handleBlur. by destruct (validateField _ _ _ _).
    + by destruct (handleSubmit_invalid onSubmit st
        (non_text_does_not_pass _ _ _ Hget Hreq Htext)) as (-> & _).
    + unfold submit_settled. by destruct (awaiting st).
Qed.

(** X25: a form that was given no [onSubmit] calls nothing and never
    shows itself as submitting, whatever is done with it;  a valid submit
    only answers [true]. *)
Theorem form_without_handler_submits_nothing initialValues st l :
  submitted st = [] -> isSubmitting st = false ->
  submitted (acts initialValues validationSchema false st l) = [] /\
  isSubmitting (acts initialValues validationSchema false st l) = false /\
  (Forall (passes validationSchema (values st)) (schema_keys validationSchema) ->
   resolved (handleSubmit validationSchema false st) = resolved st ++ [true]).
Proof.
  intros Hsub Hflag. split_and!.
  - revert st Hsub Hflag. induction l as [|a l IH]; intros st Hsub Hflag; [done|].
    simpl. apply IH; destruct a; simpl; try done.
    all: try (unfold handleChange; by destruct (default false _)).
    all: try (unfold handleBlur; by destruct (validateField _ _ _ _)).
    all: try (unfold handleSubmit; destruct (validateForm _ _); [|done];
              by destruct (negb _)).
    all: unfold submit_settled; by destruct (awaiting st).
  - revert st Hsub Hflag. induction l as [|a l IH]; intros st Hsub Hflag; [done|].
    simpl. apply IH; destruct a; simpl; try done.
    all: try (unfold handleChange; by destruct (default false _)).
    all: try (unfold handleBlur; by destruct (validateField _ _ _ _)).
    all: try (unfold handleSubmit; destruct (validateForm _ _); [|done];
              by destruct (negb _)).
    all: unfold submit_settled; by destruct (awaiting st).
  - intros Hall. unfold handleSubmit, validateForm.
    by rewrite (proj2 (collect_errors_empty (values st) _ []) (conj eq_refl Hall)).
Qed.

End FormFacts.

(** * Properties of the pages' forms *)

Section PageFacts.

Import RegExp Form Pages.

(** X26: the Register page cannot submit.  Its schema requires
    [agreeToTerms], which the page holds as the state of a checkbox: unticked
    it fails the rule, ticked it makes the rule throw.  Whatever the user
    types, ticks, leaves and submits, [onSubmit] is not called. *)
Theorem register_form_is_never_submitted onSubmit l :
  Forall (fun a => sets_text "agreeToTerms" a = false) l ->
  submitted (acts register_initial register_schema onSubmit (start register_initial) l) = [].
Proof.
  intros Hl.
  by apply (non_text_is_never_submitted register_schema register_initial onSubmit
              "agreeToTerms" agreeToTerms_rules l).
Qed.

Lemma submitted_grows {A} (l : list A) x : l <> l ++ [x].
Proof.
  intros Heq. apply (f_equal length) in Heq. rewrite length_app in Heq. simpl in Heq. lia.
Qed.

(** X27: the Login page hands the values to [login] exactly when the
    e-mail address matches the pattern and the password has six characters
    or more, not all of them white space. *)
Theorem login_form_is_submitted_iff st e p :
  value_of "email" (values st) = FStr e ->
  value_of "password" (values st) = FStr p ->
  submitted (handleSubmit login_schema true st) = submitted st ++ [values st] <->
  test email_re e = true /\ (6 <= String.length p)%nat /\ all_space p = false.
Proof.
  intros He Hp.
  assert (passes login_schema (values st) "email" <-> test email_re e = true) as Hemail.
  { unfold passes. rewrite He. destruct (all_space e) eqn:Hs.
    - destruct (blank_required_value login_schema (values st) "email" email_rules (FStr e))
        as [-> Hshown]; [done..|by right; right; exists e|].
      split.
      + intros (? & [= <-] & ?). congruence.
      + intros Ht%email_is_not_blank. congruence.
    - rewrite (validateField_text login_schema _ _ email_rules) by done.
      assert (truthy (FStr e) = true) as Htruthy by by destruct e.
      cbn -[test email_re truthy]. rewrite Htruthy.
      destruct (test email_re e); cbn -[email_re].
      + split; [done|]. intros _. by eexists.
      + split; [|done]. by intros (? & [= <-] & ?). }
  assert (passes login_schema (values st) "password"
          <-> (6 <= String.length p)%nat /\ all_space p = false) as Hpassword.
  { unfold passes. rewrite Hp. destruct (all_space p) eqn:Hs.
    - destruct (blank_required_value login_schema (values st) "password"
                  {| required := Some (ReqMessage "Password is required");
                     minLength := Some (BoundNum 6); maxLength := None;
                     pattern := None; validate := None |} (FStr p))
        as [-> Hshown]; [done..|by right; right; exists p|].
      split; [|by intros [_ ?]]. intros (? & [= <-] & ?). congruence.
    - erewrite (validateField_text login_schema) by done.
      cbn. rewrite (bool_decide_eq_false_2 (6 = 0)) by done.
      destruct (bool_decide (Z.of_nat (String.length p) < 6)) eqn:Hlen; cbn.
      + apply bool_decide_eq_true_1 in Hlen.
        split; [|intros [? _]; lia]. by intros (? & [= <-] & ?).
      + apply bool_decide_eq_false_1 in Hlen.
        split; [intros _; split; [lia|done]|]. intros _. by eexists. }
  assert (Forall (passes login_schema (values st)) (schema_keys login_schema)
          <-> test email_re e = true /\ (6 <= String.length p)%nat /\ all_space p = false)
    as Hall.
  { change (schema_keys login_schema) with ["email"; "password"].
    rewrite !Forall_cons, Hemail, Hpassword. intuition. }
  split.
  - intros Hsub.
    destruct (decide (test email_re e = true /\ (6 <= String.length p)%nat
                      /\ all_space p = false)) as [|Hnot]; [done|].
    rewrite <- Hall in Hnot.
    destruct (handleSubmit_invalid login_schema true st Hnot) as (_ & Hsame & _).
    rewrite Hsame in Hsub. by apply submitted_grows in Hsub.
  - intros Hpass%Hall. by rewrite handleSubmit_valid.
Qed.

(** X28: the strength of a password is 0 only for no password, and 5 at
    most: the label "Very Weak" of the table is never shown. *)
Theorem password_is_never_very_weak password :
  let result := getPasswordStrength password in
  (result.1 = 0%nat <-> truthy password = false) /\
  (result.1 <= 5)%nat /\
  result.2.1 <> "Very Weak".
Proof.
  unfold getPasswordStrength. destruct (truthy password) eqn:Htruthy;
    [|cbn; split_and!; [done|lia|done]].
  cbn [negb]. rewrite !test_class.
  assert (has Lower (to_string password) || has Upper (to_string password)
          || has Digit (to_string password)
          || has (Not (Or Upper (Or Lower Digit))) (to_string password) = true) as Hsome.
  { destruct password as [|[]|[|c s]]; try done.
    cbn [to_string has in_class].
    destruct (bool_decide (97 ≤ code c ≤ 122)%N), (bool_decide (65 ≤ code c ≤ 90)%N),
      (bool_decide (48 ≤ code c ≤ 57)%N); cbn; by rewrite ?orb_true_r. }
  destruct (long_enough password), (has Lower _), (has Upper _), (has Digit _),
    (has (Not _) _); cbn in *; try done; split_and!; try (done || lia);
    split; (done || lia).
Qed.

End PageFacts.

(** * Properties of the authentication reducer *)

Section AuthFacts.

Import Auth.

Lemma loading_has_no_error s l :
  (isLoading s = true -> error s = JNull) ->
  isLoading (dispatch s l) = true -> error (dispatch s l) = JNull.
Proof.
  revert s. induction l as [|a l IH]; intros s Hs; [done|].
  simpl. apply IH. by destruct a.
Qed.

(** X29: while a login or a registration is under way no error is held:
    in every state that the reducer reaches from the initial one,
    [isLoading] comes with [error] being [null]. *)
Theorem auth_loading_excludes_error stored l :
  isLoading (dispatch (initialState stored) l) = true ->
  error (dispatch (initialState stored) l) = JNull.
Proof. by apply loading_has_no_error. Qed.

Lemma session_agrees l : forall s s',
  user s = user s' -> token s = token s' -> isAuthenticated s = isAuthenticated s' ->
  user (dispatch s l) = user (dispatch s' (filter changes_session l)) /\
  token (dispatch s l) = token (dispatch s' (filter changes_session l)) /\
  isAuthenticated (dispatch s l)
    = isAuthenticated (dispatch s' (filter changes_session l)).
Proof.
  induction l as [|a l IH]; intros s s' Hu Ht Ha; [done|].
  destruct a; rewrite ?filter_cons_True, ?filter_cons_False by (simpl; auto);
    simpl; by apply IH.
Qed.

(** X30: only a success and a logout touch the session: the user, the
    token and [isAuthenticated] after any actions are what they are after
    the successes and logouts among them, so that a failed or a started
    login neither ends nor changes the session of a user. *)
Theorem session_changes_by_success_or_logout s l :
  user (dispatch s l) = user (dispatch s (filter changes_session l)) /\
  token (dispatch s l) = token (dispatch s (filter changes_session l)) /\
  isAuthenticated (dispatch s l)
    = isAuthenticated (dispatch s (filter changes_session l)).
Proof. by apply session_agrees. Qed.

End AuthFacts.

(** * Instances of the properties *)

Section Instances.

Import RegExp Form Pages.

(** The eager instance is superseded by a call for another endpoint: of
    the two waiting invocations only the second is live. *)
Lemma one_live_request_witness :
  let h := step eager (mount eager 0) (Execute (Some "/api/posts/2") None 5) in
  reachable eager h /\
  is_Some (frames h !! 0%nat) /\
  frames h !! 1%nat = Some (AwaitFetch (cacheKey "/api/posts/2" [])) /\
  (1%nat ∉ aborted h) /\
  abortControllerRef h = Some 1%nat.
Proof.
  intros h.
  assert (reachable eager h) as Hreach by (constructor; apply reachable_mount).
  assert (frames h !! 1%nat = Some (AwaitFetch (cacheKey "/api/posts/2" []))) as Hf
    by (vm_compute; reflexivity).
  assert (1%nat ∉ aborted h) as Hab by (vm_compute; intros Hin; discriminate Hin).
  split_and!; [exact Hreach|vm_compute; eexists; reflexivity|exact Hf|exact Hab|].
  exact (proj2 (one_live_request eager h 1%nat 1%nat _ _ Hreach Hf Hf Hab Hab)).
Defined.

Lemma loading_excludes_error_witness :
  reachable eager (mount eager 0) /\
  loading (mount eager 0) = true /\
  error (mount eager 0) = None.
Proof.
  assert (reachable eager (mount eager 0)) as Hreach by apply reachable_mount.
  split_and!; [exact Hreach|reflexivity|].
  exact (loading_excludes_error eager (mount eager 0) Hreach eq_refl).
Defined.

(** The network is down when the eager instance mounts. *)
Lemma transport_failure_is_reported_witness :
  let h := mount eager 0 in
  let e := {| err_name := "TypeError"; err_message := "Failed to fetch" |} in
  let f := AwaitFetch (cacheKey (url eager) (options eager)) in
  frames h !! 0%nat = Some f /\
  (0%nat ∉ aborted h) /\
  err_name e ≠ "AbortError" /\
  returned (step eager h (rejection 0 f e 3)) = [(0%nat, Failure "Failed to fetch")] /\
  error (step eager h (rejection 0 f e 3)) = Some "Failed to fetch".
Proof.
  intros h e f.
  assert (frames h !! 0%nat = Some f) as Hf by (vm_compute; reflexivity).
  assert (0%nat ∉ aborted h) as Hab by (vm_compute; intros Hin; discriminate Hin).
  assert (err_name e ≠ "AbortError") as Hname by discriminate.
  destruct (transport_failure_is_reported eager h 0%nat f e 3 Hf Hab Hname)
    as (Hret & Herr & _).
  split_and!; [exact Hf|exact Hab|exact Hname|exact Hret|exact Herr].
Defined.

(** The cached default request is refetched. *)
Lemma cache_changes_by_success_or_refetch_witness :
  let h := run manual (mount manual 0) cached_at_10 in
  let k := cacheKey (url manual) (options manual) in
  cacheRef (step manual h (Refetch 20)) !! k ≠ cacheRef h !! k /\
  ((exists now,
       Refetch 20 = Refetch now /\ k = cacheKey (url manual) (options manual) /\
       cacheRef (step manual h (Refetch 20)) !! k = None) \/
   (exists c payload now,
       Refetch 20 = BodySettled c (Fulfilled payload) now /\
       frames h !! c = Some (AwaitJson k) /\
       (c ∉ aborted h) /\
       cacheRef (step manual h (Refetch 20)) !! k
         = Some {| entry_data := payload; timestamp := now |})).
Proof.
  intros h k.
  assert (cacheRef (step manual h (Refetch 20)) !! k ≠ cacheRef h !! k) as Hne
    by (vm_compute; discriminate).
  split; [exact Hne|].
  exact (cache_changes_by_success_or_refetch manual h (Refetch 20) k Hne).
Defined.

(** The cached entry outlives another call and the teardown. *)
Lemma entries_are_never_purged_witness :
  let h := run manual (mount manual 0) cached_at_10 in
  let k := cacheKey (url manual) (options manual) in
  let evs := [Execute (Some "/api/posts/2") None 99999999; Cleanup] in
  is_Some (cacheRef h !! k) /\ is_Some (cacheRef (run manual h evs) !! k).
Proof.
  intros h k evs.
  assert (is_Some (cacheRef h !! k)) as Hk by (vm_compute; eexists; reflexivity).
  split; [exact Hk|].
  exact (entries_are_never_purged manual evs h k eq_refl Hk).
Defined.

(** The scenario of the cache hit while another request is in flight. *)
Lemma cache_hit_serves_and_freezes_witness :
  let h := run manual (mount manual 0) (cached_at_10 ++ [Execute (Some "/api/posts/2") None 20]) in
  let cached := {| entry_data := post1; timestamp := 10 |} in
  reachable manual h /\
  cacheRef h !! cacheKey (default (url manual) None) (default (options manual) None)
    = Some cached /\
  30 - timestamp cached < cacheTime manual /\
  network (step manual h (Execute None None 30)) = network h /\
  view (run manual (step manual h (Execute None None 30)) [FetchSettled 1 ok200])
    = (post1, true, None).
Proof.
  intros h cached.
  assert (reachable manual h) as Hreach by apply reachable_run, reachable_mount.
  assert (cacheRef h !! cacheKey (default (url manual) None) (default (options manual) None)
          = Some cached) as Hk by (vm_compute; reflexivity).
  assert (30 - timestamp cached < cacheTime manual) as Hfresh by (vm_compute; reflexivity).
  destruct (cache_hit_serves_and_freezes manual h None None 30 cached
              [FetchSettled 1 ok200] Hreach Hk Hfresh eq_refl) as (Hnet & _ & _ & _ & Hview).
  split_and!; [exact Hreach|exact Hk|exact Hfresh|exact Hnet|exact Hview].
Defined.

(** [useApi('/api/posts/1', {}, false, 0)]: the request cached at time
    10 is sent again at time 10. *)
Lemma no_time_to_live_no_cache_witness :
  let cfg := useApi "/api/posts/1" None (Some false) (Some 0) in
  let h := run cfg (mount cfg 0) cached_at_10 in
  cacheTime cfg <= 0 /\
  (forall k cached, cacheRef h !! k = Some cached -> timestamp cached <= 10) /\
  is_Some (cacheRef h !! cacheKey (url cfg) (options cfg)) /\
  network (step cfg h (Execute None None 10))
    = network h ++ [(url cfg, fetch_init (options cfg) (controllers h))].
Proof.
  intros cfg h.
  assert (cacheTime cfg <= 0) as Httl by (vm_compute; discriminate).
  assert (forall k cached, cacheRef h !! k = Some cached -> timestamp cached <= 10) as Hclock.
  { intros k cached.
    assert (cacheRef h = {[ cacheKey (url cfg) (options cfg)
                            := {| entry_data := post1; timestamp := 10 |} ]}) as ->
      by (vm_compute; reflexivity).
    intros [_ <-]%lookup_singleton_Some. simpl. lia. }
  split_and!; [exact Httl|exact Hclock|vm_compute; eexists; reflexivity|].
  exact (proj1 (no_time_to_live_no_cache cfg h None None 10 Httl Hclock)).
Defined.


(** A request with a method and an [Authorization] header. *)
Lemma request_options_witness :
  let o := [("method", JStr "PUT"); ("headers", JObj [("Authorization", JStr "Bearer t")])] in
  NoDup o.*1 /\
  obj_get "signal" (fetch_init o 4) = JSignal 4 /\
  obj_get "method" (fetch_init o 4) = JStr "PUT".
Proof.
  intros o.
  assert (NoDup o.*1) as Hnd by compute_done.
  destruct (request_options o 4 Hnd) as (Hsignal & Hother & _).
  split_and!; [exact Hnd|exact Hsignal|].
  exact (Hother "method" ltac:(discriminate) ltac:(discriminate)).
Defined.

(** [usePost('/api/posts')], whose [execute] is called with headers only. *)
Lemma custom_options_drop_the_forced_method_witness :
  let cfg := usePost "/api/posts" None in
  let o := [("headers", JObj [("Authorization", JStr "Bearer t")])] in
  let h := mount cfg 0 in
  NoDup o.*1 /\
  ("method" ∉ o.*1) /\
  cacheRef h !! cacheKey (default (url cfg) None) o = None /\
  obj_get "method" (fetch_init o (controllers h)) = JUndefined /\
  obj_get "method" (options cfg) = JStr "POST".
Proof.
  intros cfg o h.
  assert (NoDup o.*1) as Hnd by compute_done.
  assert ("method" ∉ o.*1) as Hnin by compute_done.
  assert (cacheRef h !! cacheKey (default (url cfg) None) o = None) as Hk
    by (vm_compute; reflexivity).
  destruct (custom_options_drop_the_forced_method "/api/posts" None h None o 0 Hnd Hnin Hk)
    as (_ & Hsent & Hforced).
  split_and!; [exact Hnd|exact Hnin|exact Hk|exact Hsent|exact Hforced].
Defined.

Lemma cache_key_separates_endpoints_witness :
  cacheKey "/api/me" bare = cacheKey "/api/me" bare /\ "/api/me" = "/api/me".
Proof.
  split; [reflexivity|].
  exact (cache_key_separates_endpoints "/api/me" "/api/me" bare eq_refl).
Defined.

(** The box of the Register page, not ticked. *)
Lemma blank_required_field_is_rejected_witness :
  prop_get "agreeToTerms" register_schema = Some agreeToTerms_rules /\
  required_set agreeToTerms_rules = true /\
  validateField register_schema register_initial "agreeToTerms" (FBool false)
    = Normal (ErrStr "You must agree to the terms and conditions").
Proof.
  split_and!; [reflexivity..|].
  exact (proj1 (blank_required_field_is_rejected register_schema register_initial
                  "agreeToTerms" agreeToTerms_rules (FBool false) eq_refl eq_refl
                  (or_intror (or_introl eq_refl)))).
Defined.

(** The box of the Register page, ticked. *)
Lemma ticked_required_checkbox_throws_witness :
  let st := handleChange "agreeToTerms" (FBool true) (start register_initial) in
  prop_get "agreeToTerms" register_schema = Some agreeToTerms_rules /\
  required_set agreeToTerms_rules = true /\
  value_of "agreeToTerms" (values st) = FBool true /\
  validateField register_schema (values st) "agreeToTerms" (FBool true)
    = Throw (TypeError "value.trim is not a function") /\
  submitted (handleSubmit register_schema true st) = submitted st.
Proof.
  intros st.
  destruct (ticked_required_checkbox_throws register_schema true st "agreeToTerms"
              agreeToTerms_rules eq_refl eq_refl eq_refl) as (Hthrow & _ & _ & Hsub & _).
  split_and!; [reflexivity..|exact Hthrow|exact Hsub].
Defined.

(** A field for tags that may be left empty. *)
Lemma empty_optional_field_skips_rules_witness :
  let r := {| required := None; minLength := Some (BoundNum 3); maxLength := None;
              pattern := Some (PatRegExp username_re); validate := None |} in
  prop_get "tags" [("tags", r)] = Some r /\
  required_set r = false /\
  truthy (FStr "") = false /\
  validateField [("tags", r)] [] "tags" (FStr "") = Normal (ErrStr "").
Proof.
  intros r. split_and!; [reflexivity..|].
  exact (empty_optional_field_skips_rules [("tags", r)] [] "tags" r (FStr "")
           eq_refl eq_refl eq_refl).
Defined.

(** A user name of two characters on the Register page. *)
Lemma length_failure_returns_the_number_witness :
  prop_get "username" register_schema = Some username_rules /\
  all_space "ab" = false /\
  3 ≠ 0 /\
  (minLength username_rules = Some (BoundNum 3) /\ Z.of_nat (String.length "ab") < 3) /\
  validateField register_schema register_initial "username" (FStr "ab") = Normal (ErrNum 3).
Proof.
  assert (3 ≠ 0) as Hn by discriminate.
  assert (minLength username_rules = Some (BoundNum 3) /\ Z.of_nat (String.length "ab") < 3)
    as Hshort by (split; reflexivity).
  refine (conj eq_refl (conj eq_refl (conj Hn (conj Hshort _)))).
  exact (length_failure_returns_the_number register_schema register_initial "username"
           username_rules "ab" 3 eq_refl eq_refl Hn (or_introl Hshort)).
Defined.

(** A user name with a dash on the Register page. *)
Lemma pattern_failure_returns_the_pattern_witness :
  prop_get "username" register_schema = Some username_rules /\
  all_space "jo-ann" = false /\
  test username_re "jo-ann" = false /\
  validateField register_schema register_initial "username" (FStr "jo-ann")
    = Normal (ErrRegExp username_re).
Proof.
  assert (test username_re "jo-ann" = false) as Htest by (vm_compute; reflexivity).
  split_and!; [reflexivity|reflexivity|exact Htest|].
  exact (pattern_failure_returns_the_pattern register_schema register_initial "username"
           username_rules "jo-ann" username_re eq_refl eq_refl eq_refl eq_refl eq_refl Htest).
Defined.

(** A malformed address on the Register page. *)
Lemma friendly_messages_are_never_shown_witness :
  prop_get "email" register_schema = Some email_rules /\
  validateField register_schema register_initial "email" (FStr "nobody")
    ≠ Normal (ErrStr "Please enter a valid email address").
Proof.
  split; [reflexivity|].
  exact (friendly_messages_are_never_shown register_schema register_initial "email"
           email_rules "Please enter a valid email address" (FStr "nobody") eq_refl
           (list_elem_of_here _ _)).
Defined.

Lemma strong_pattern_asks_for_three_kinds_witness :
  all_in Dot "Passw0rd" = true /\
  has Lower "Passw0rd" = true /\ has Upper "Passw0rd" = true /\
  has Digit "Passw0rd" = true /\
  test strong_re "Passw0rd" = true.
Proof.
  split_and!; [reflexivity..|].
  exact (proj2 (strong_pattern_asks_for_three_kinds "Passw0rd")
           eq_refl eq_refl eq_refl eq_refl).
Defined.

(** A password of the Register page. *)
Lemma password_rules_accept_witness :
  prop_get "password" register_schema = Some password_rules /\
  all_in Dot "Passw0rd" = true /\
  (8 <= String.length "Passw0rd")%nat /\
  validateField register_schema register_initial "password" (FStr "Passw0rd")
    = Normal (ErrStr "").
Proof.
  assert (8 <= String.length "Passw0rd")%nat as Hlen by (simpl; lia).
  split_and!; [reflexivity|reflexivity|exact Hlen|].
  exact (proj2 (password_rules_accept register_schema register_initial "password"
                  "Passw0rd" eq_refl) eq_refl Hlen eq_refl eq_refl eq_refl).
Defined.

(** A good address is typed into the Login form and the field is left. *)
Lemma blur_makes_the_form_invalid_witness :
  let st := handleChange "email" (FStr "ann@example.org") (start login_initial) in
  let l := [Change "password" (FStr "secret1"); Blur "password"] in
  validateField login_schema (values st) "email" (value_of "email" (values st))
    = Normal (ErrStr "") /\
  Forall (fun a => a <> Submit /\ a <> Reset) l /\
  isValid (acts login_initial login_schema true (handleBlur login_schema "email" st) l)
    = false.
Proof.
  intros st l.
  assert (validateField login_schema (values st) "email" (value_of "email" (values st))
          = Normal (ErrStr "")) as Hok by (vm_compute; reflexivity).
  assert (Forall (fun a => a <> Submit /\ a <> Reset) l) as Hl
    by (repeat constructor; discriminate).
  split_and!; [exact Hok|exact Hl|].
  exact (blur_makes_the_form_invalid login_schema login_initial true "email" st _ l Hok Hl).
Defined.

(** The Login form, filled in. *)
Lemma submitted_when_every_field_passes_witness :
  let st := acts login_initial login_schema true (start login_initial)
              [Change "email" (FStr "ann@example.org"); Change "password" (FStr "secret1")] in
  Forall (passes login_schema (values st)) (schema_keys login_schema) /\
  submitted (handleSubmit login_schema true st) = [values st].
Proof.
  intros st.
  assert (Forall (passes login_schema (values st)) (schema_keys login_schema)) as Hall
    by (repeat constructor; eexists; split; vm_compute; reflexivity).
  split; [exact Hall|].
  exact (proj1 (proj1 (submitted_when_every_field_passes login_schema st) Hall)).
Defined.

(** The filled-in Login form is submitted three times. *)
Lemma repeated_submit_is_not_guarded_witness :
  let st := acts login_initial login_schema true (start login_initial)
              [Change "email" (FStr "ann@example.org"); Change "password" (FStr "secret1")] in
  Forall (passes login_schema (values st)) (schema_keys login_schema) /\
  submitted (acts login_initial login_schema true st [Submit; Submit; Submit])
    = [values st; values st; values st].
Proof.
  intros st.
  assert (Forall (passes login_schema (values st)) (schema_keys login_schema)) as Hall
    by (repeat constructor; eexists; split; vm_compute; reflexivity).
  split; [exact Hall|].
  exact (proj1 (repeated_submit_is_not_guarded login_schema login_initial st 3 Hall)).
Defined.

(** The CreatePost form, filled in and submitted. *)
Lemma form_without_handler_submits_nothing_witness :
  let st := acts createpost_initial createpost_schema false (start createpost_initial)
              [Change "title" (FStr "A title"); Change "content" (FStr "Some content.");
               Change "category" (FStr "news")] in
  submitted st = [] /\ isSubmitting st = false /\
  Forall (passes createpost_schema (values st)) (schema_keys createpost_schema) /\
  submitted (acts createpost_initial createpost_schema false st [Submit]) = [] /\
  resolved (handleSubmit createpost_schema false st) = [true].
Proof.
  intros st.
  assert (Forall (passes createpost_schema (values st)) (schema_keys createpost_schema))
    as Hall by (repeat constructor; eexists; split; vm_compute; reflexivity).
  destruct (form_without_handler_submits_nothing createpost_schema createpost_initial st
              [Submit] eq_refl eq_refl) as (Hsub & _ & Hres).
  split_and!; [reflexivity|reflexivity|exact Hall|exact Hsub|exact (Hres Hall)].
Defined.

(** The Register form is filled in, the box is ticked, and it is
    submitted. *)
Lemma register_form_is_never_submitted_witness :
  let l := [Change "username" (FStr "ann_1"); Change "email" (FStr "ann@example.org");
            Change "password" (FStr "Passw0rd"); Change "confirmPassword" (FStr "Passw0rd");
            Change "agreeToTerms" (FBool true); Submit] in
  Forall (fun a => sets_text "agreeToTerms" a = false) l /\
  submitted (acts register_initial register_schema true (start register_initial) l) = [].
Proof.
  intros l.
  assert (Forall (fun a => sets_text "agreeToTerms" a = false) l) as Hl
    by (repeat constructor).
  split; [exact Hl|].
  exact (register_form_is_never_submitted true l Hl).
Defined.

Lemma login_form_is_submitted_iff_witness :
  let st := acts login_initial login_schema true (start login_initial)
              [Change "email" (FStr "ann@example.org"); Change "password" (FStr "secret1")] in
  value_of "email" (values st) = FStr "ann@example.org" /\
  value_of "password" (values st) = FStr "secret1" /\
  test email_re "ann@example.org" = true /\
  submitted (handleSubmit login_schema true st) = submitted st ++ [values st].
Proof.
  intros st.
  assert (test email_re "ann@example.org" = true) as Htest by (vm_compute; reflexivity).
  split_and!; [reflexivity|reflexivity|exact Htest|].
  apply (login_form_is_submitted_iff st "ann@example.org" "secret1" eq_refl eq_refl).
  split_and!; [exact Htest|simpl; lia|reflexivity].
Defined.

(** A login is started while the error of a failed one is held. *)
Lemma auth_loading_excludes_error_witness :
  let l := [Auth.LOGIN_START; Auth.LOGIN_FAILURE (JStr "Login failed"); Auth.LOGIN_START] in
  Auth.isLoading (Auth.dispatch (Auth.initialState None) l) = true /\
  Auth.error (Auth.dispatch (Auth.initialState None) l) = JNull.
Proof.
  intros l. split; [reflexivity|].
  exact (auth_loading_excludes_error None l eq_refl).
Defined.

End Instances.
